(** * Conditions of the scheduler: composition, evaluation, estimates

    A shallow embedding of

      - [pypipe/conditions/base.py]: [BaseCondition] and the composites
        [Any], [All], [Not], the constants [AlwaysTrue] and [AlwaysFalse],
        and [TimeCondition];
      - [powerbase/parse/_condition/condition_item.py]: the registry of
        condition parsers and [parse_condition_item].

    Python objects are modelled twice, for two different purposes.  The
    inductive type [cond] is the composition tree of a condition: it is what
    [__bool__] and the estimates recurse over.  The module [Store] keeps the
    objects in a heap addressed by references, so that "the very same object"
    is a statement about references. *)

From Stdlib Require Import String List ZArith Bool Lia Permutation.
Import ListNotations.

Set Warnings "-register-all".
Local Open Scope string_scope.
Local Open Scope list_scope.
Local Open Scope Z_scope.

(** ** Exceptions and results *)

(** The exceptions the modelled code can raise.  [Exception] stands for any
    exception raised by code outside the modelled files (a condition whose
    [__bool__] fails, a constructor called by a parser). *)
Inductive exn : Type :=
| TypeError (msg : string)
| ValueError (msg : string)
| AttributeError (name : string)
| ParserError
| Exception (msg : string).

(** A Python call either returns a value or raises. *)
Inductive result (A : Type) : Type :=
| Ok (a : A)
| Raise (e : exn).

Arguments Ok {A} a.
Arguments Raise {A} e.

Definition bind {A B : Type} (r : result A) (k : A -> result B) : result B :=
  match r with
  | Ok a => k a
  | Raise e => Raise e
  end.

Notation "x <- r ;; k" := (bind r (fun x => k))
  (at level 61, r at next level, right associativity).

Definition fmap {A B : Type} (f : A -> B) (r : result A) : result B :=
  x <- r ;; Ok (f x).

(** ** Time *)

(** A [datetime.datetime] is the number of microseconds since an epoch and a
    [datetime.timedelta] a number of microseconds, both unbounded here. *)
Definition datetime := Z.
Definition timedelta := Z.

(** [datetime.timedelta.resolution] is [timedelta(microseconds=1)]. *)
Definition timedelta_resolution : timedelta := 1.

(** The module [pypipe.time] is not part of the modelled files.  What the
    conditions use of a period is taken as given: membership ([in]) and
    [rollforward], which returns an interval with a [left] edge. *)
Record Interval : Type := { left : datetime; right : datetime }.

Record Period : Type := {
  contains : datetime -> bool;
  rollforward : datetime -> Interval
}.

(** The clock of [BaseCondition.current_datetime]: the class attribute
    [mode], the optional class attribute [_current_datetime] set by
    [set_current_datetime], and what [datetime.datetime.now()] answers.
    Both attributes are looked up from the instance, so a clock is what one
    class of conditions sees; [TimeCondition] is the only class here that
    reads it. *)
Record Clock : Type := {
  mode : string;
  _current_datetime : option datetime;
  datetime_now : datetime
}.

Definition current_datetime (clk : Clock) : datetime :=
  match _current_datetime clk with
  | Some value => if String.eqb (mode clk) "test" then value else datetime_now clk
  | None => datetime_now clk
  end.

Definition set_current_datetime (value : datetime) (clk : Clock) : Clock :=
  {| mode := mode clk; _current_datetime := Some value;
     datetime_now := datetime_now clk |}.

(** ** Conditions *)

(** The composition tree of a condition.  [Subclass] is an instance of a
    class derived from [BaseCondition] outside the modelled files: all that
    matters of it is what its [__bool__] does and whether it has a method
    [estimate_timedelta].  A [TimeCondition] built without [period_class]
    has no attribute [period]. *)
Inductive cond : Type :=
| Any (subconditions : list cond)
| All (subconditions : list cond)
| Not (condition : cond)
| AlwaysTrue
| AlwaysFalse
| TimeCondition (period : option Period)
| Subclass (bool_result : result bool)
           (estimate : option (datetime -> result timedelta)).

(** *** Construction *)

(** [Any.__init__(self, *conditions)]: the loop over [conditions], with
    [self.subconditions] as accumulator.  [Any_conds c] is the value of
    [conds] for the argument [c]: its children when it is an [Any], the
    one-element list of [c] itself otherwise. *)
Definition Any_conds (c : cond) : list cond :=
  match c with
  | Any subs => subs
  | _ => [c]
  end.

Fixpoint Any_init_loop (subconditions conditions : list cond) : list cond :=
  match conditions with
  | [] => subconditions
  | c :: rest =>
      let conds := Any_conds c in
      Any_init_loop (subconditions ++ conds) rest
  end.

Definition Any_init (conditions : list cond) : cond :=
  Any (Any_init_loop [] conditions).

(** [All.__init__(self, *conditions)]. *)
Definition All_conds (c : cond) : list cond :=
  match c with
  | All subs => subs
  | _ => [c]
  end.

Fixpoint All_init_loop (subconditions conditions : list cond) : list cond :=
  match conditions with
  | [] => subconditions
  | c :: rest =>
      let conds := All_conds c in
      All_init_loop (subconditions ++ conds) rest
  end.

Definition All_init (conditions : list cond) : cond :=
  All (All_init_loop [] conditions).

(** [Not.__init__(self, condition)] stores its argument. *)
Definition Not_init (condition : cond) : cond := Not condition.

(** [TimeCondition.from_period(period)]. *)
Definition from_period (period : Period) : cond := TimeCondition (Some period).

(** The property [subconditions]: the list attribute of [Any] and [All], the
    one-element tuple [(self.condition,)] of [Not]; other conditions have no
    such attribute. *)
Definition subconditions_of (c : cond) : result (list cond) :=
  match c with
  | Any subs | All subs => Ok subs
  | Not condition => Ok [condition]
  | _ => Raise (AttributeError "subconditions")
  end.

(** The operators of [BaseCondition]; [Not] overrides [__invert__]. *)
Definition and_ (self other : cond) : cond := All_init [self; other].
Definition or_ (self other : cond) : cond := Any_init [self; other].
Definition invert (self : cond) : cond :=
  match self with
  | Not condition => condition
  | _ => Not_init self
  end.

(** *** Conditions built by the constructors *)

(** [isinstance(c, Any)] and [isinstance(c, All)]. *)
Definition is_Any (c : cond) : bool :=
  match c with Any _ => true | _ => false end.

Definition is_All (c : cond) : bool :=
  match c with All _ => true | _ => false end.

(** No [Any] is a child of an [Any] and no [All] a child of an [All],
    anywhere in the tree. *)
Fixpoint flat (c : cond) : bool :=
  match c with
  | Any subs => forallb (fun x => negb (is_Any x) && flat x) subs
  | All subs => forallb (fun x => negb (is_All x) && flat x) subs
  | Not condition => flat condition
  | _ => true
  end.

(** The conditions that calls of the constructors produce, the attributes
    being left alone afterwards. *)
Inductive constructed : cond -> Prop :=
| constructed_Any conditions :
    (forall c, In c conditions -> constructed c) ->
    constructed (Any_init conditions)
| constructed_All conditions :
    (forall c, In c conditions -> constructed c) ->
    constructed (All_init conditions)
| constructed_Not condition :
    constructed condition -> constructed (Not_init condition)
| constructed_AlwaysTrue : constructed AlwaysTrue
| constructed_AlwaysFalse : constructed AlwaysFalse
| constructed_TimeCondition period : constructed (TimeCondition period)
| constructed_Subclass r e : constructed (Subclass r e).

(** *** Evaluation *)

Section Builtins.
Context {A : Type}.
Variable truth : A -> result bool.

(** The builtin [any] over a list: the truth value of each element in
    order, stopping at the first true one. *)
Fixpoint py_any (l : list A) : result bool :=
  match l with
  | [] => Ok false
  | x :: rest => b <- truth x ;; if b then Ok true else py_any rest
  end.

(** The builtin [all]: stops at the first false element. *)
Fixpoint py_all (l : list A) : result bool :=
  match l with
  | [] => Ok true
  | x :: rest => b <- truth x ;; if b then py_all rest else Ok false
  end.
End Builtins.

(** [__bool__] of each class, under a clock. *)
Fixpoint bool_ (clk : Clock) (c : cond) : result bool :=
  match c with
  | Any subs => py_any (bool_ clk) subs
  | All subs => py_all (bool_ clk) subs
  | Not condition => fmap negb (bool_ clk condition)
  | AlwaysTrue => Ok true
  | AlwaysFalse => Ok false
  | TimeCondition (Some period) => Ok (contains period (current_datetime clk))
  | TimeCondition None => Raise (AttributeError "period")
  | Subclass r _ => r
  end.

(** *** Estimates *)

Section MinMax.
Context {A : Type}.
Variable item : A -> result timedelta.

(** The builtins [min] and [max] over a generator whose elements are
    [item x] for [x] in a list.  The elements are produced one at a time,
    so an element that raises ends the call; a later element replaces the
    current one only when it is strictly smaller (greater). *)
Fixpoint py_min_from (minitem : timedelta) (l : list A) : result timedelta :=
  match l with
  | [] => Ok minitem
  | x :: rest =>
      v <- item x ;;
      py_min_from (if v <? minitem then v else minitem) rest
  end.

Definition py_min (l : list A) : result timedelta :=
  match l with
  | [] => Raise (ValueError "min() arg is an empty sequence")
  | x :: rest => v <- item x ;; py_min_from v rest
  end.

Fixpoint py_max_from (maxitem : timedelta) (l : list A) : result timedelta :=
  match l with
  | [] => Ok maxitem
  | x :: rest =>
      v <- item x ;;
      py_max_from (if v >? maxitem then v else maxitem) rest
  end.

Definition py_max (l : list A) : result timedelta :=
  match l with
  | [] => Raise (ValueError "max() arg is an empty sequence")
  | x :: rest => v <- item x ;; py_max_from v rest
  end.
End MinMax.

(** [hasattr(cond, "estimate_timedelta")].  [Any] and [All] define the
    method; [Not] does not, and its [__getattr__] then asks the wrapped
    condition; the constants and [TimeCondition] (whose method is
    [estimate_next]) do not have it. *)
Fixpoint hasattr_estimate_timedelta (c : cond) : bool :=
  match c with
  | Any _ | All _ => true
  | Not condition => hasattr_estimate_timedelta condition
  | AlwaysTrue | AlwaysFalse | TimeCondition _ => false
  | Subclass _ (Some _) => true
  | Subclass _ None => false
  end.

(** [hasattr("estimate_timedelta")], as [Any.estimate_timedelta] calls it:
    the builtin takes two arguments. *)
Definition hasattr_one_argument : result bool :=
  Raise (TypeError "hasattr expected 2 arguments, got 1").

(** [cond.estimate_timedelta(dt)] for each class: the methods of [Any] and
    [All], the delegation of [Not], the method of a subclass that has one.
    In [Any] the alternative [0] of the conditional expression is the
    integer zero. *)
Fixpoint estimate_timedelta (c : cond) (dt : datetime) : result timedelta :=
  match c with
  | Any subs =>
      py_min (fun cond =>
                b <- hasattr_one_argument ;;
                if b then estimate_timedelta cond dt else Ok 0)
             subs
  | All subs =>
      py_max (fun cond =>
                if hasattr_estimate_timedelta cond
                then estimate_timedelta cond dt
                else Ok timedelta_resolution)
             subs
  | Not condition => estimate_timedelta condition dt
  | Subclass _ (Some f) => f dt
  | _ => Raise (AttributeError "estimate_timedelta")
  end.

(** [TimeCondition.estimate_next(self, dt)]. *)
Definition estimate_next (period : option Period) (dt : datetime)
  : result timedelta :=
  match period with
  | Some p =>
      let interval := rollforward p dt in
      Ok (dt - left interval)
  | None => Raise (AttributeError "period")
  end.

(** What a child of an [All] contributes to the maximum: its estimate when
    it has the method, the resolution when it has not. *)
Definition contributes (dt : datetime) (c : cond) (v : timedelta) : Prop :=
  if hasattr_estimate_timedelta c
  then estimate_timedelta c dt = Ok v
  else v = timedelta_resolution.

(** A period for examples: the single window from [start] to [stop], rolled
    forward to its start from before it and to the instant itself from
    inside it. *)
Definition window (start stop : datetime) : Period :=
  {| contains := fun t => (start <=? t) && (t <? stop);
     rollforward := fun dt =>
       if dt <? start
       then {| left := start; right := stop |}
       else {| left := dt; right := Z.max dt stop |} |}.

(** ** The registry of condition parsers *)

Section Parse.
(** What the parsers return, and the builtin [repr] on strings. *)
Context {A : Type}.
Variable repr : string -> string.

(** [Parser] of [powerbase.parse.utils] is not part of the modelled
    files: an instance is taken as what calling it on a string does, and
    it raises [ParserError] when its pattern does not match. *)
Definition Parser : Type := string -> result A.

(** [add_condition_parser] appends to the module-level list
    [CONDITION_PARSERS]; [sentence] is [Parser(s, func, regex=regex)]. *)
Definition add_condition_parser (sentence : Parser)
    (CONDITION_PARSERS : list Parser) : list Parser :=
  CONDITION_PARSERS ++ [sentence].

(** [parse_condition_item(s)], with the list [CONDITION_PARSERS] it reads
    as an argument. *)
Fixpoint parse_condition_item (CONDITION_PARSERS : list Parser) (s : string)
  : result A :=
  match CONDITION_PARSERS with
  | [] => Raise (ValueError (String.append "Cannot parse the condition: " (repr s)))
  | parser :: rest =>
      match parser s with
      | Raise ParserError => parse_condition_item rest s
      | r => r
      end
  end.
End Parse.

(** ** Objects and references *)

(** Conditions as Python has them: objects in a heap, a composite holding
    references to its children.  A reference is the position of the object
    in the heap, and constructing an object appends it, so that a reference
    never changes its meaning.  The tree of type [cond] hanging from a
    reference is read back by [denote]. *)
Module Store.

Definition ref : Type := nat.

Inductive obj : Type :=
| OAny (subconditions : list ref)
| OAll (subconditions : list ref)
| ONot (condition : ref)
| OAlwaysTrue
| OAlwaysFalse
| OTimeCondition (period : option Period)
| OSubclass (bool_result : result bool)
            (estimate : option (datetime -> result timedelta)).

Definition heap : Type := list obj.

Definition lookup (h : heap) (r : ref) : option obj := nth_error h r.

Definition alloc (h : heap) (o : obj) : heap * ref :=
  (h ++ [o], length h).

(** [isinstance(cond, Any)] followed by [cond.subconditions], or [[cond]]. *)
Definition Any_conds (h : heap) (cond : ref) : list ref :=
  match lookup h cond with
  | Some (OAny subs) => subs
  | _ => [cond]
  end.

Definition All_conds (h : heap) (cond : ref) : list ref :=
  match lookup h cond with
  | Some (OAll subs) => subs
  | _ => [cond]
  end.

Fixpoint init_loop (conds_of : ref -> list ref)
    (subconditions conditions : list ref) : list ref :=
  match conditions with
  | [] => subconditions
  | cond :: rest => init_loop conds_of (subconditions ++ conds_of cond) rest
  end.

(** The constructors [Any], [All] and [Not] called on references: the new
    heap and the reference of the new object. *)
Definition Any_init (h : heap) (conditions : list ref) : heap * ref :=
  alloc h (OAny (init_loop (Any_conds h) [] conditions)).

Definition All_init (h : heap) (conditions : list ref) : heap * ref :=
  alloc h (OAll (init_loop (All_conds h) [] conditions)).

Definition Not_init (h : heap) (condition : ref) : heap * ref :=
  alloc h (ONot condition).

(** [~self]: [Not.__invert__] returns the attribute [condition], the
    method inherited from [BaseCondition] constructs [Not(self)]. *)
Definition invert (h : heap) (self : ref) : heap * ref :=
  match lookup h self with
  | Some (ONot condition) => (h, condition)
  | _ => Not_init h self
  end.

(** The attribute [subconditions] of the object behind a reference. *)
Definition subconditions_of (h : heap) (self : ref) : option (list ref) :=
  match lookup h self with
  | Some (OAny subs) | Some (OAll subs) => Some subs
  | Some (ONot condition) => Some [condition]
  | _ => None
  end.

Fixpoint map_option {A B : Type} (f : A -> option B) (l : list A)
  : option (list B) :=
  match l with
  | [] => Some []
  | x :: rest =>
      match f x, map_option f rest with
      | Some y, Some ys => Some (y :: ys)
      | _, _ => None
      end
  end.

(** The composition tree below a reference, to a depth of [fuel]. *)
Fixpoint denote (fuel : nat) (h : heap) (r : ref) : option cond :=
  match fuel with
  | O => None
  | S n =>
      match lookup h r with
      | None => None
      | Some (OAny subs) => option_map Any (map_option (denote n h) subs)
      | Some (OAll subs) => option_map All (map_option (denote n h) subs)
      | Some (ONot condition) => option_map Not (denote n h condition)
      | Some OAlwaysTrue => Some AlwaysTrue
      | Some OAlwaysFalse => Some AlwaysFalse
      | Some (OTimeCondition period) => Some (TimeCondition period)
      | Some (OSubclass r e) => Some (Subclass r e)
      end
  end.

End Store.

(** ** The rest of the condition classes *)

(** *** [ConditionContainer.apply] *)

(** [isinstance(subcond, ConditionContainer)]: [Any], [All] and [Not] are
    the containers. *)
Definition is_container (c : cond) : bool :=
  match c with
  | Any _ | All _ | Not _ => true
  | _ => false
  end.

Section ForEach.
Context {A B : Type}.
Variable body : A -> result B.

(** A loop that appends what [body] returns for each element, the first
    exception ending it. *)
Fixpoint for_each (l : list A) : result (list B) :=
  match l with
  | [] => Ok []
  | x :: rest => y <- body x ;; ys <- for_each rest ;; Ok (y :: ys)
  end.
End ForEach.

(** [self.apply(func, **kwargs)], the keyword arguments being part of
    [func]: the function is applied to the conditions that are not
    containers, and every container is constructed again, by the
    constructor of its own class, from what its children became.  The
    other classes have no method [apply]. *)
Fixpoint apply (func : cond -> result cond) (self : cond) : result cond :=
  let on_subcond := fun subcond =>
    match subcond with
    | Any _ | All _ | Not _ => apply func subcond
    | _ => func subcond
    end in
  match self with
  | Any subs => subconds <- for_each on_subcond subs ;; Ok (Any_init subconds)
  | All subs => subconds <- for_each on_subcond subs ;; Ok (All_init subconds)
  | Not condition => subcond <- on_subcond condition ;; Ok (Not_init subcond)
  | _ => Raise (AttributeError "apply")
  end.

(** What [apply] does to one child: the body of its loop. *)
Definition apply_subcond (func : cond -> result cond) (subcond : cond)
  : result cond :=
  match subcond with
  | Any _ | All _ | Not _ => apply func subcond
  | _ => func subcond
  end.

(** *** [cycle] *)

(** The module [pypipe.time] is not part of the modelled files: what
    [cycle] returns is kept as the calls it makes, [time.StaticInterval()],
    [time.Any(...)], [time.All(...)] and [~period]. *)
Inductive TimePeriod : Type :=
| StaticInterval
| time_Any (periods : list TimePeriod)
| time_All (periods : list TimePeriod)
| time_invert (period : TimePeriod).

(** [isinstance(cond, TimeCondition)]. *)
Definition is_TimeCondition (c : cond) : bool :=
  match c with TimeCondition _ => true | _ => false end.

(** The property [cycle]: the one of [BaseCondition], which the constants
    and [TimeCondition] inherit (a subclass being taken to inherit it too),
    and the ones of [Any], [All] and [Not]. *)
Fixpoint cycle (c : cond) : TimePeriod :=
  match c with
  | Any subs =>
      let all_timeperiods := forallb is_TimeCondition subs in
      if all_timeperiods
      then time_Any (map cycle subs)
      else StaticInterval
  | All subs => time_All (map cycle subs)
  | Not condition =>
      if is_TimeCondition condition
      then time_invert (cycle condition)
      else StaticInterval
  | _ => StaticInterval
  end.

(** The same conditions with other periods: [same_shape c c'] holds when
    [c'] is [c] up to the periods of its time conditions. *)
Inductive same_shape : cond -> cond -> Prop :=
| same_Any subs subs' :
    Forall2 same_shape subs subs' -> same_shape (Any subs) (Any subs')
| same_All subs subs' :
    Forall2 same_shape subs subs' -> same_shape (All subs) (All subs')
| same_Not c c' : same_shape c c' -> same_shape (Not c) (Not c')
| same_AlwaysTrue : same_shape AlwaysTrue AlwaysTrue
| same_AlwaysFalse : same_shape AlwaysFalse AlwaysFalse
| same_TimeCondition p p' : same_shape (TimeCondition p) (TimeCondition p')
| same_Subclass r e : same_shape (Subclass r e) (Subclass r e).

(** ** The queue handler *)

(** [atlas/log/handlers/queue.py].  A log record is an object that
    [format] changes in place and [copy.copy] duplicates, so the records
    live in a heap and [prepare] takes and returns references. *)
Module Queue.

Section Records.
(** The values of [record.args] and [record.exc_info], and the attributes
    of a record that [prepare] does not name. *)
Variables Args ExcInfo Rest : Type.

Record LogRecord : Type := {
  msg : string;
  args : option Args;
  exc_info : option ExcInfo;
  exc_text : option string;
  message : option string;
  rest : Rest
}.

Definition ref : Type := nat.
Definition heap : Type := list LogRecord.

(** [self.format(record)] is inherited from [logging.Handler]: what it
    does to the record and the string it returns are taken as given. *)
Variable format : LogRecord -> result (LogRecord * string).

Fixpoint store (h : heap) (r : ref) (v : LogRecord) : heap :=
  match h, r with
  | [], _ => []
  | _ :: h', O => v :: h'
  | x :: h', S r' => x :: store h' r' v
  end.

(** Assignments to the attributes [message], [args] and [exc_info]. *)
Definition set_message (v : option string) (r : LogRecord) : LogRecord :=
  {| msg := msg r; args := args r; exc_info := exc_info r;
     exc_text := exc_text r; message := v; rest := rest r |}.

Definition set_args (v : option Args) (r : LogRecord) : LogRecord :=
  {| msg := msg r; args := v; exc_info := exc_info r;
     exc_text := exc_text r; message := message r; rest := rest r |}.

Definition set_exc_info (v : option ExcInfo) (r : LogRecord) : LogRecord :=
  {| msg := msg r; args := args r; exc_info := v;
     exc_text := exc_text r; message := message r; rest := rest r |}.

Definition setattr (assign : LogRecord -> LogRecord) (h : heap) (r : ref)
  : heap :=
  match nth_error h r with
  | Some v => store h r (assign v)
  | None => h
  end.

(** [copy.copy(record)]: a new object with the attributes of the old. *)
Definition copy (h : heap) (record : ref) : heap * ref :=
  match nth_error h record with
  | Some v => (h ++ [v], length h)
  | None => (h, record)
  end.

(** [QueueHandler.prepare(self, record)]. *)
Definition prepare (h : heap) (record : ref) : result (heap * ref) :=
  match nth_error h record with
  | None => Raise (Exception "no such record")
  | Some r =>
      formatted <- format r ;;
      let (r1, msg_) := formatted in
      let h := store h record r1 in
      let (h, record) := copy h record in
      let h := setattr (set_message (Some msg_)) h record in
      let h := setattr (set_args None) h record in
      let h := setattr (set_exc_info None) h record in
      Ok (h, record)
  end.

End Records.

Arguments msg {Args ExcInfo Rest} _.
Arguments args {Args ExcInfo Rest} _.
Arguments exc_info {Args ExcInfo Rest} _.
Arguments exc_text {Args ExcInfo Rest} _.
Arguments message {Args ExcInfo Rest} _.
Arguments rest {Args ExcInfo Rest} _.
Arguments store {Args ExcInfo Rest} h r v.
Arguments set_message {Args ExcInfo Rest} v r.
Arguments set_args {Args ExcInfo Rest} v r.
Arguments set_exc_info {Args ExcInfo Rest} v r.
Arguments setattr {Args ExcInfo Rest} assign h r.
Arguments copy {Args ExcInfo Rest} h record.
Arguments prepare {Args ExcInfo Rest} format h record.

End Queue.

(** * Properties *)

(** ** Induction over composition trees *)

Section CondInd.
Variable P : cond -> Prop.
Hypothesis HAny : forall subs, Forall P subs -> P (Any subs).
Hypothesis HAll : forall subs, Forall P subs -> P (All subs).
Hypothesis HNot : forall c, P c -> P (Not c).
Hypothesis HTrue : P AlwaysTrue.
Hypothesis HFalse : P AlwaysFalse.
Hypothesis HTime : forall p, P (TimeCondition p).
Hypothesis HSub : forall r e, P (Subclass r e).

Fixpoint cond_nested_ind (c : cond) : P c :=
  match c with
  | Any subs =>
      HAny subs
        ((fix go (l : list cond) : Forall P l :=
            match l with
            | [] => Forall_nil P
            | x :: rest => Forall_cons x (cond_nested_ind x) (go rest)
            end) subs)
  | All subs =>
      HAll subs
        ((fix go (l : list cond) : Forall P l :=
            match l with
            | [] => Forall_nil P
            | x :: rest => Forall_cons x (cond_nested_ind x) (go rest)
            end) subs)
  | Not c' => HNot c' (cond_nested_ind c')
  | AlwaysTrue => HTrue
  | AlwaysFalse => HFalse
  | TimeCondition p => HTime p
  | Subclass r e => HSub r e
  end.
End CondInd.

(** ** The result monad *)

Lemma bind_Ok {A B : Type} (a : A) (k : A -> result B) :
  (x <- Ok a ;; k x) = k a.
Proof. reflexivity. Qed.

Lemma bind_Raise {A B : Type} (e : exn) (k : A -> result B) :
  (x <- Raise e ;; k x) = Raise e.
Proof. reflexivity. Qed.

Lemma fmap_negb_involutive (r : result bool) : fmap negb (fmap negb r) = r.
Proof.
  destruct r as [b | e]; cbn; [ now rewrite negb_involutive | reflexivity ].
Qed.

(** ** Construction: what the loops compute *)

Lemma Any_init_loop_flat_map (conditions acc : list cond) :
  Any_init_loop acc conditions = acc ++ flat_map Any_conds conditions.
Proof.
  revert acc; induction conditions as [| c rest IH]; intros acc; cbn.
  - now rewrite app_nil_r.
  - rewrite IH, <- app_assoc. reflexivity.
Qed.

Lemma All_init_loop_flat_map (conditions acc : list cond) :
  All_init_loop acc conditions = acc ++ flat_map All_conds conditions.
Proof.
  revert acc; induction conditions as [| c rest IH]; intros acc; cbn.
  - now rewrite app_nil_r.
  - rewrite IH, <- app_assoc. reflexivity.
Qed.

Lemma Any_init_children (conditions : list cond) :
  Any_init conditions = Any (flat_map Any_conds conditions).
Proof. unfold Any_init. now rewrite Any_init_loop_flat_map. Qed.

Lemma All_init_children (conditions : list cond) :
  All_init conditions = All (flat_map All_conds conditions).
Proof. unfold All_init. now rewrite All_init_loop_flat_map. Qed.

Lemma Any_conds_not_Any (c : cond) : is_Any c = false -> Any_conds c = [c].
Proof. destruct c; cbn; congruence. Qed.

Lemma All_conds_not_All (c : cond) : is_All c = false -> All_conds c = [c].
Proof. destruct c; cbn; congruence. Qed.

(** The children an argument contributes are those of a flat [Any]. *)
Lemma Any_conds_flat (c : cond) :
  flat c = true ->
  forallb (fun x => negb (is_Any x) && flat x) (Any_conds c) = true.
Proof.
  intros Hc. destruct c; cbn in *; try exact Hc; try reflexivity;
    now rewrite Hc.
Qed.

Lemma All_conds_flat (c : cond) :
  flat c = true ->
  forallb (fun x => negb (is_All x) && flat x) (All_conds c) = true.
Proof.
  intros Hc. destruct c; cbn in *; try exact Hc; try reflexivity;
    now rewrite Hc.
Qed.

Lemma forallb_flat_map {A B : Type} (p : B -> bool) (f : A -> list B)
    (l : list A) :
  (forall x, In x l -> forallb p (f x) = true) ->
  forallb p (flat_map f l) = true.
Proof.
  induction l as [| x rest IH]; intros H; cbn; [ reflexivity |].
  rewrite forallb_app, (H x (or_introl eq_refl)), IH; [ reflexivity |].
  intros y Hy. apply H. now right.
Qed.

Lemma Any_init_flat (conditions : list cond) :
  (forall c, In c conditions -> flat c = true) ->
  flat (Any_init conditions) = true.
Proof.
  intros H. rewrite Any_init_children. cbn.
  apply forallb_flat_map. intros c Hc. apply Any_conds_flat. now apply H.
Qed.

Lemma All_init_flat (conditions : list cond) :
  (forall c, In c conditions -> flat c = true) ->
  flat (All_init conditions) = true.
Proof.
  intros H. rewrite All_init_children. cbn.
  apply forallb_flat_map. intros c Hc. apply All_conds_flat. now apply H.
Qed.

(** Flatness is an invariant of construction. *)
Lemma constructed_flat (c : cond) : constructed c -> flat c = true.
Proof.
  induction 1 as [conditions _ IH | conditions _ IH | c _ IH | | | p | r e];
    try reflexivity.
  - now apply Any_init_flat.
  - now apply All_init_flat.
  - exact IH.
Qed.

Lemma flat_Any_children (subs : list cond) :
  flat (Any subs) = true -> Forall (fun x => is_Any x = false) subs.
Proof.
  cbn. intros H. apply Forall_forall. intros x Hx.
  rewrite forallb_forall in H. specialize (H x Hx).
  apply andb_prop in H as [H _]. now apply negb_true_iff.
Qed.

Lemma flat_All_children (subs : list cond) :
  flat (All subs) = true -> Forall (fun x => is_All x = false) subs.
Proof.
  cbn. intros H. apply Forall_forall. intros x Hx.
  rewrite forallb_forall in H. specialize (H x Hx).
  apply andb_prop in H as [H _]. now apply negb_true_iff.
Qed.

(** ** Evaluation of composites *)

Section AnyAll.
Context {A : Type}.
Variable truth : A -> result bool.

Lemma py_any_app (l1 l2 : list A) :
  py_any truth (l1 ++ l2) =
  (b <- py_any truth l1 ;; if b then Ok true else py_any truth l2).
Proof.
  induction l1 as [| x rest IH]; cbn; [ reflexivity |].
  destruct (truth x) as [[|] | e]; cbn; try reflexivity. exact IH.
Qed.

Lemma py_all_app (l1 l2 : list A) :
  py_all truth (l1 ++ l2) =
  (b <- py_all truth l1 ;; if b then py_all truth l2 else Ok false).
Proof.
  induction l1 as [| x rest IH]; cbn; [ reflexivity |].
  destruct (truth x) as [[|] | e]; cbn; try reflexivity. exact IH.
Qed.

Lemma py_any_singleton (x : A) : py_any truth [x] = truth x.
Proof. cbn. now destruct (truth x) as [[|] | e]. Qed.

Lemma py_all_singleton (x : A) : py_all truth [x] = truth x.
Proof. cbn. now destruct (truth x) as [[|] | e]. Qed.

(** [any] is true exactly when some element is, all the elements before
    it having been false. *)
Lemma py_any_true_iff (l : list A) :
  py_any truth l = Ok true <->
  exists pre x post, l = pre ++ x :: post /\
    Forall (fun y => truth y = Ok false) pre /\ truth x = Ok true.
Proof.
  induction l as [| y rest IH]; cbn.
  - split; [ discriminate |].
    intros (pre & x & post & Heq & _). now destruct pre.
  - destruct (truth y) as [[|] | e] eqn:Hy; cbn.
    + split; [ intros _ | reflexivity ].
      exists [], y, rest. repeat split; [ constructor | exact Hy ].
    + rewrite IH. split.
      * intros (pre & x & post & -> & Hpre & Hx).
        exists (y :: pre), x, post. repeat split; auto.
      * intros (pre & x & post & Heq & Hpre & Hx).
        destruct pre as [| y' pre]; cbn in Heq; inversion Heq; subst.
        -- congruence.
        -- inversion Hpre; subst. now exists pre, x, post.
    + split; [ discriminate |].
      intros (pre & x & post & Heq & Hpre & Hx).
      destruct pre as [| y' pre]; cbn in Heq; inversion Heq; subst.
      * congruence.
      * inversion Hpre; subst. congruence.
Qed.

(** [all] is false exactly when some element is, all the elements before
    it having been true. *)
Lemma py_all_false_iff (l : list A) :
  py_all truth l = Ok false <->
  exists pre x post, l = pre ++ x :: post /\
    Forall (fun y => truth y = Ok true) pre /\ truth x = Ok false.
Proof.
  induction l as [| y rest IH]; cbn.
  - split; [ discriminate |].
    intros (pre & x & post & Heq & _). now destruct pre.
  - destruct (truth y) as [[|] | e] eqn:Hy; cbn.
    + rewrite IH. split.
      * intros (pre & x & post & -> & Hpre & Hx).
        exists (y :: pre), x, post. repeat split; auto.
      * intros (pre & x & post & Heq & Hpre & Hx).
        destruct pre as [| y' pre]; cbn in Heq; inversion Heq; subst.
        -- congruence.
        -- inversion Hpre; subst. now exists pre, x, post.
    + split; [ intros _ | reflexivity ].
      exists [], y, rest. repeat split; [ constructor | exact Hy ].
    + split; [ discriminate |].
      intros (pre & x & post & Heq & Hpre & Hx).
      destruct pre as [| y' pre]; cbn in Heq; inversion Heq; subst.
      * congruence.
      * inversion Hpre; subst. congruence.
Qed.
End AnyAll.

Lemma py_any_Any_conds (clk : Clock) (c : cond) :
  py_any (bool_ clk) (Any_conds c) = bool_ clk c.
Proof.
  destruct c; try apply py_any_singleton. reflexivity.
Qed.

Lemma py_all_All_conds (clk : Clock) (c : cond) :
  py_all (bool_ clk) (All_conds c) = bool_ clk c.
Proof.
  destruct c; try apply py_all_singleton. reflexivity.
Qed.

(** Absorbing the children of the arguments does not change the truth
    value: an [Any] evaluates as [any] over the constructor's arguments. *)
Lemma bool_Any_init (clk : Clock) (conditions : list cond) :
  bool_ clk (Any_init conditions) = py_any (bool_ clk) conditions.
Proof.
  rewrite Any_init_children. cbn.
  induction conditions as [| c rest IH]; cbn; [ reflexivity |].
  now rewrite py_any_app, py_any_Any_conds, IH.
Qed.

Lemma bool_All_init (clk : Clock) (conditions : list cond) :
  bool_ clk (All_init conditions) = py_all (bool_ clk) conditions.
Proof.
  rewrite All_init_children. cbn.
  induction conditions as [| c rest IH]; cbn; [ reflexivity |].
  now rewrite py_all_app, py_all_All_conds, IH.
Qed.

(** De Morgan, whatever the operands do: a raising operand raises on both
    sides, or is not reached on either. *)
Lemma de_morgan_any_outcome (clk : Clock) (a b : cond) :
  bool_ clk (Not_init (All_init [a; b])) =
  bool_ clk (Any_init [Not_init a; Not_init b]).
Proof.
  unfold Not_init. cbn [bool_]. rewrite bool_All_init, bool_Any_init.
  cbn. destruct (bool_ clk a) as [[|] | ea]; cbn; try reflexivity.
  destruct (bool_ clk b) as [[|] | eb]; reflexivity.
Qed.

(** ** Claims about evaluation *)

(** C10.  [Any()] built from no condition evaluates to false and [All()]
    built from no condition evaluates to true, under every clock. *)
Theorem empty_composites_evaluate (clk : Clock) :
  bool_ clk (Any_init []) = Ok false /\ bool_ clk (All_init []) = Ok true.
Proof. split; reflexivity. Qed.



(** C9.  De Morgan: when [a] evaluates to the boolean [x] and [b] to the
    boolean [y], [Not(All(a, b))] and [Any(Not(a), Not(b))] evaluate to the
    same boolean, the complement of [x && y]. *)
Theorem de_morgan (clk : Clock) (a b : cond) (x y : bool) :
  bool_ clk a = Ok x ->
  bool_ clk b = Ok y ->
  bool_ clk (Not_init (All_init [a; b])) =
  bool_ clk (Any_init [Not_init a; Not_init b]) /\
  bool_ clk (Not_init (All_init [a; b])) = Ok (negb (x && y)).
Proof.
  intros Ha Hb. split; [ apply de_morgan_any_outcome |].
  unfold Not_init. cbn [bool_]. rewrite bool_All_init. cbn.
  rewrite Ha. cbn. destruct x; cbn; [| reflexivity ].
  rewrite Hb. cbn. now destruct y.
Qed.

Lemma de_morgan_witness :
  let clk := {| mode := "prod"; _current_datetime := None; datetime_now := 0 |} in
  bool_ clk (Not_init (All_init [AlwaysTrue; AlwaysFalse])) =
  bool_ clk (Any_init [Not_init AlwaysTrue; Not_init AlwaysFalse]) /\
  bool_ clk (Not_init (All_init [AlwaysTrue; AlwaysFalse])) = Ok true.
Proof.
  intros clk.
  exact (de_morgan clk AlwaysTrue AlwaysFalse true false eq_refl eq_refl).
Defined.

(** ** Claims about construction *)

(** C6.  [Any(Any(a, b), c)] has the child sequence of [Any(a, b, c)]: what
    [a], [b] and [c] contribute, from left to right, which is [[a; b; c]]
    when none of them is an [Any]; and when [a], [b] and [c] were built by
    the constructors, no child of the result is an [Any].  The same holds of
    [All]. *)
Theorem flattening (a b c : cond) :
  (subconditions_of (Any_init [Any_init [a; b]; c]) =
     subconditions_of (Any_init [a; b; c]) /\
   subconditions_of (Any_init [a; b; c]) =
     Ok (Any_conds a ++ Any_conds b ++ Any_conds c) /\
   (is_Any a = false -> is_Any b = false -> is_Any c = false ->
    subconditions_of (Any_init [Any_init [a; b]; c]) = Ok [a; b; c]) /\
   (constructed a -> constructed b -> constructed c ->
    forall subs, subconditions_of (Any_init [Any_init [a; b]; c]) = Ok subs ->
                 Forall (fun x => is_Any x = false) subs)) /\
  (subconditions_of (All_init [All_init [a; b]; c]) =
     subconditions_of (All_init [a; b; c]) /\
   subconditions_of (All_init [a; b; c]) =
     Ok (All_conds a ++ All_conds b ++ All_conds c) /\
   (is_All a = false -> is_All b = false -> is_All c = false ->
    subconditions_of (All_init [All_init [a; b]; c]) = Ok [a; b; c]) /\
   (constructed a -> constructed b -> constructed c ->
    forall subs, subconditions_of (All_init [All_init [a; b]; c]) = Ok subs ->
                 Forall (fun x => is_All x = false) subs)).
Proof.
  split.
  - assert (Hnest : Any_init [Any_init [a; b]; c] =
                    Any (Any_conds a ++ Any_conds b ++ Any_conds c)).
    { rewrite !Any_init_children. cbn. now rewrite !app_nil_r, <- app_assoc. }
    assert (Hflat : Any_init [a; b; c] =
                    Any (Any_conds a ++ Any_conds b ++ Any_conds c)).
    { rewrite Any_init_children. cbn. now rewrite !app_nil_r. }
    split; [| split; [| split ] ].
    + now rewrite Hnest, Hflat.
    + now rewrite Hflat.
    + intros Ha Hb Hc. rewrite Hnest.
      now rewrite (Any_conds_not_Any a Ha), (Any_conds_not_Any b Hb),
        (Any_conds_not_Any c Hc).
    + intros Ha Hb Hc subs Hsubs.
      assert (Hfl : flat (Any_init [Any_init [a; b]; c]) = true).
      { apply constructed_flat. constructor.
        intros x [<- | [<- | []]]; [| exact Hc ].
        constructor. intros y [<- | [<- | []]]; assumption. }
      rewrite Hnest in Hfl, Hsubs. cbn in Hsubs. inversion Hsubs; subst.
      now apply flat_Any_children.
  - assert (Hnest : All_init [All_init [a; b]; c] =
                    All (All_conds a ++ All_conds b ++ All_conds c)).
    { rewrite !All_init_children. cbn. now rewrite !app_nil_r, <- app_assoc. }
    assert (Hflat : All_init [a; b; c] =
                    All (All_conds a ++ All_conds b ++ All_conds c)).
    { rewrite All_init_children. cbn. now rewrite !app_nil_r. }
    split; [| split; [| split ] ].
    + now rewrite Hnest, Hflat.
    + now rewrite Hflat.
    + intros Ha Hb Hc. rewrite Hnest.
      now rewrite (All_conds_not_All a Ha), (All_conds_not_All b Hb),
        (All_conds_not_All c Hc).
    + intros Ha Hb Hc subs Hsubs.
      assert (Hfl : flat (All_init [All_init [a; b]; c]) = true).
      { apply constructed_flat. constructor.
        intros x [<- | [<- | []]]; [| exact Hc ].
        constructor. intros y [<- | [<- | []]]; assumption. }
      rewrite Hnest in Hfl, Hsubs. cbn in Hsubs. inversion Hsubs; subst.
      now apply flat_All_children.
Qed.

Lemma flattening_witness :
  let a := AlwaysTrue in
  let b := AlwaysFalse in
  let c := Not_init AlwaysTrue in
  subconditions_of (Any_init [Any_init [a; b]; c]) = Ok [a; b; c] /\
  Forall (fun x => is_Any x = false) [a; b; c] /\
  subconditions_of (All_init [All_init [a; b]; c]) = Ok [a; b; c] /\
  Forall (fun x => is_All x = false) [a; b; c].
Proof.
  intros a b c.
  destruct (flattening a b c) as [(_ & _ & Hany & Hany') (_ & _ & Hall & Hall')].
  pose proof (constructed_Not _ constructed_AlwaysTrue) as Hc.
  split; [ exact (Hany eq_refl eq_refl eq_refl) |].
  split; [ exact (Hany' constructed_AlwaysTrue constructed_AlwaysFalse Hc _
                    (Hany eq_refl eq_refl eq_refl)) |].
  split; [ exact (Hall eq_refl eq_refl eq_refl) |].
  exact (Hall' constructed_AlwaysTrue constructed_AlwaysFalse Hc _
           (Hall eq_refl eq_refl eq_refl)).
Defined.

Lemma flat_map_nil_iff {A B : Type} (f : A -> list B) (l : list A) :
  flat_map f l = [] <-> Forall (fun x => f x = []) l.
Proof.
  induction l as [| x rest IH]; cbn.
  - split; [ constructor | reflexivity ].
  - split.
    + intros H. apply app_eq_nil in H as [Hx Hrest].
      constructor; [ exact Hx | now apply IH ].
    + intros H. inversion H; subst.
      match goal with Hx : f x = [] |- _ => rewrite Hx end.
      now apply IH.
Qed.

Lemma Any_conds_nil_iff (c : cond) : Any_conds c = [] <-> c = Any [].
Proof. destruct c; cbn; split; congruence. Qed.

Lemma All_conds_nil_iff (c : cond) : All_conds c = [] <-> c = All [].
Proof. destruct c; cbn; split; congruence. Qed.

Lemma Any_init_empty_iff (conditions : list cond) :
  subconditions_of (Any_init conditions) = Ok [] <->
  Forall (fun x => x = Any []) conditions.
Proof.
  rewrite Any_init_children. cbn.
  split.
  - intros H. injection H as H'. apply flat_map_nil_iff in H'.
    eapply Forall_impl; [| exact H' ].
    intros x Hx. now apply Any_conds_nil_iff.
  - intros H. f_equal. apply flat_map_nil_iff.
    eapply Forall_impl; [| exact H ].
    intros x Hx. now apply Any_conds_nil_iff.
Qed.

Lemma All_init_empty_iff (conditions : list cond) :
  subconditions_of (All_init conditions) = Ok [] <->
  Forall (fun x => x = All []) conditions.
Proof.
  rewrite All_init_children. cbn.
  split.
  - intros H. injection H as H'. apply flat_map_nil_iff in H'.
    eapply Forall_impl; [| exact H' ].
    intros x Hx. now apply All_conds_nil_iff.
  - intros H. f_equal. apply flat_map_nil_iff.
    eapply Forall_impl; [| exact H ].
    intros x Hx. now apply All_conds_nil_iff.
Qed.

Lemma Exists_not_Forall {A : Type} (P : A -> Prop) (l : list A) :
  Exists (fun x => ~ P x) l -> ~ Forall P l.
Proof.
  induction 1 as [x rest Hx | x rest _ IH]; intros HF; inversion HF; subst;
    auto.
Qed.

(** C4, as the code has it.  The child sequence of an [Any] is empty after
    construction exactly when every argument is an [Any] without children
    (in particular when there is no argument), and non-empty as soon as one
    argument is anything else; the same holds of [All]; a [Not] holds the
    one condition it was given. *)
Theorem children_after_construction (conditions : list cond) (c : cond) :
  (subconditions_of (Any_init conditions) = Ok [] <->
   Forall (fun x => x = Any []) conditions) /\
  (Exists (fun x => x <> Any []) conditions ->
   exists y ys, subconditions_of (Any_init conditions) = Ok (y :: ys)) /\
  (subconditions_of (All_init conditions) = Ok [] <->
   Forall (fun x => x = All []) conditions) /\
  (Exists (fun x => x <> All []) conditions ->
   exists y ys, subconditions_of (All_init conditions) = Ok (y :: ys)) /\
  subconditions_of (Not_init c) = Ok [c].
Proof.
  split; [ apply Any_init_empty_iff |].
  split.
  { intros HE. apply Exists_not_Forall in HE.
    rewrite <- Any_init_empty_iff in HE.
    rewrite Any_init_children in *. cbn in *.
    destruct (flat_map Any_conds conditions) as [| y ys];
      [ now elim HE | now exists y, ys ]. }
  split; [ apply All_init_empty_iff |].
  split; [| reflexivity ].
  intros HE. apply Exists_not_Forall in HE.
  rewrite <- All_init_empty_iff in HE.
  rewrite All_init_children in *. cbn in *.
  destruct (flat_map All_conds conditions) as [| y ys];
    [ now elim HE | now exists y, ys ].
Qed.

Lemma children_after_construction_witness :
  (exists y ys, subconditions_of (Any_init [AlwaysTrue]) = Ok (y :: ys)) /\
  (exists y ys, subconditions_of (All_init [AlwaysTrue]) = Ok (y :: ys)).
Proof.
  destruct (children_after_construction [AlwaysTrue] AlwaysFalse)
    as (_ & Hany & _ & Hall & _).
  split.
  - apply Hany. constructor. discriminate.
  - apply Hall. constructor. discriminate.
Defined.

(** C4 as stated fails: a composite constructed from no condition has no
    child. *)
Lemma construction_can_be_empty :
  subconditions_of (Any_init []) = Ok [] /\
  subconditions_of (All_init []) = Ok [] /\
  ~ (forall conditions : list cond,
       subconditions_of (Any_init conditions) <> Ok [] /\
       subconditions_of (All_init conditions) <> Ok []).
Proof.
  split; [ reflexivity |]. split; [ reflexivity |].
  intros H. destruct (H []) as [HAny _]. now apply HAny.
Qed.

(** ** Negation and object identity *)

Lemma lookup_alloc_new (h : Store.heap) (o : Store.obj) :
  Store.lookup (fst (Store.alloc h o)) (snd (Store.alloc h o)) = Some o.
Proof.
  unfold Store.alloc, Store.lookup. cbn.
  rewrite nth_error_app2, Nat.sub_diag; [ reflexivity | apply Nat.le_refl ].
Qed.

Lemma lookup_Some_lt (h : Store.heap) (r : Store.ref) (o : Store.obj) :
  Store.lookup h r = Some o -> (r < length h)%nat.
Proof.
  unfold Store.lookup. intros H. apply nth_error_Some. congruence.
Qed.

(** Construction leaves the objects that exist where they are. *)
Lemma lookup_alloc_old (h : Store.heap) (o o' : Store.obj) (r : Store.ref) :
  Store.lookup h r = Some o' ->
  Store.lookup (fst (Store.alloc h o)) r = Some o'.
Proof.
  intros H. unfold Store.alloc, Store.lookup in *. cbn.
  rewrite nth_error_app1; [ exact H |].
  apply nth_error_Some. congruence.
Qed.

Lemma Not_Not_neq (a : cond) : Not (Not a) <> a.
Proof.
  induction a; try discriminate.
  intros H. injection H as H. now apply IHa.
Qed.

(** C3, as the code has it.  The operator [~] applied to a [Not] returns
    the wrapped condition: on trees, [~Not(a)] is [a]; on objects, it is the
    reference that was wrapped, and nothing is constructed.  The constructor
    does not simplify: [Not(Not(a))] is a new object wrapping the wrapper,
    different from [a] as a tree and as a reference, which evaluates as [a]
    does. *)
Theorem double_negation (clk : Clock) (a : cond)
    (h : Store.heap) (r : Store.ref) (o : Store.obj) :
  Store.lookup h r = Some o ->
  invert (Not_init a) = a /\
  bool_ clk (Not_init (Not_init a)) = bool_ clk a /\
  Not_init (Not_init a) <> a /\
  let (h1, n) := Store.Not_init h r in
  Store.invert h1 n = (h1, r) /\
  let (h2, nn) := Store.Not_init h1 n in
  nn <> r /\
  Store.lookup h2 nn = Some (Store.ONot n) /\
  Store.lookup h2 n = Some (Store.ONot r) /\
  Store.lookup h2 r = Some o.
Proof.
  intros Hr.
  split; [ reflexivity |].
  split; [ cbn; apply fmap_negb_involutive |].
  split; [ apply Not_Not_neq |].
  pose proof (lookup_Some_lt _ _ _ Hr) as Hlt.
  pose proof (lookup_alloc_new h (Store.ONot r)) as Hn.
  unfold Store.Not_init.
  destruct (Store.alloc h (Store.ONot r)) as [h1 n] eqn:E1.
  cbn [fst snd] in Hn.
  split.
  { unfold Store.invert. now rewrite Hn. }
  pose proof (lookup_alloc_new h1 (Store.ONot n)) as Hnn.
  pose proof (lookup_alloc_old h1 (Store.ONot n) _ n Hn) as Hn'.
  assert (Hr1 : Store.lookup h1 r = Some o).
  { pose proof (lookup_alloc_old h (Store.ONot r) _ r Hr) as H.
    now rewrite E1 in H. }
  pose proof (lookup_alloc_old h1 (Store.ONot n) _ r Hr1) as Hr2.
  destruct (Store.alloc h1 (Store.ONot n)) as [h2 nn] eqn:E2.
  cbn [fst snd] in *.
  unfold Store.alloc in E1, E2. injection E1 as <- <-. injection E2 as <- <-.
  repeat split; try assumption.
  rewrite length_app. cbn. lia.
Qed.

Lemma double_negation_witness :
  let clk := {| mode := "prod"; _current_datetime := None; datetime_now := 0 |} in
  let h := [Store.OAlwaysTrue] in
  invert (Not_init AlwaysTrue) = AlwaysTrue /\
  Store.invert (fst (Store.Not_init h 0%nat)) (snd (Store.Not_init h 0%nat)) =
    (fst (Store.Not_init h 0%nat), 0%nat).
Proof.
  intros clk h.
  pose proof (double_negation clk AlwaysTrue h 0%nat Store.OAlwaysTrue eq_refl)
    as (H1 & _ & _ & H4).
  split; [ exact H1 |].
  cbn in H4. destruct H4 as [H4 _]. exact H4.
Defined.

(** C3 as stated fails: the constructor applied twice does not give back the
    condition, neither as a tree nor as an object. *)
Lemma Not_of_Not_is_a_new_wrapper :
  Not_init (Not_init AlwaysTrue) <> AlwaysTrue /\
  (let h := [Store.OAlwaysTrue] in
   let (h1, n) := Store.Not_init h 0%nat in
   let (h2, nn) := Store.Not_init h1 n in
   nn <> 0%nat /\ Store.lookup h2 nn = Some (Store.ONot n)) /\
  ~ (forall a : cond, Not_init (Not_init a) = a).
Proof.
  split; [ discriminate |].
  split; [ cbn; split; [ discriminate | reflexivity ] |].
  intros H. specialize (H AlwaysTrue). discriminate.
Qed.

(** ** Claims about estimates *)

Section MaxFacts.
Context {A : Type}.
Variable item : A -> result timedelta.



(** The first element that raises ends the call with its exception. *)
Lemma py_max_from_raises (pre : list A) (x : A) (post : list A)
    (vs : list timedelta) (e : exn) :
  Forall2 (fun y v => item y = Ok v) pre vs ->
  item x = Raise e ->
  forall m0, py_max_from item m0 (pre ++ x :: post) = Raise e.
Proof.
  induction 1 as [| y v pre vs Hy _ IH]; intros Hx m0; cbn.
  - now rewrite Hx.
  - rewrite Hy. cbn. now apply IH.
Qed.
End MaxFacts.

Lemma contributes_item (dt : datetime) (subs : list cond)
    (vs : list timedelta) :
  Forall2 (contributes dt) subs vs ->
  Forall2 (fun c v =>
             (if hasattr_estimate_timedelta c
              then estimate_timedelta c dt
              else Ok timedelta_resolution) = Ok v) subs vs.
Proof.
  induction 1 as [| c v subs vs Hc _ IH]; constructor; [| exact IH ].
  unfold contributes in Hc. destruct (hasattr_estimate_timedelta c);
    [ exact Hc | now subst ].
Qed.



(** An [All] without children has no estimate: [max] of nothing raises. *)
Lemma All_estimate_timedelta_empty (dt : datetime) :
  estimate_timedelta (All_init []) dt =
  Raise (ValueError "max() arg is an empty sequence").
Proof. reflexivity. Qed.


(** C1.  [Any.estimate_timedelta] never returns: with at least one child,
    producing the first element of the minimum calls [hasattr] with one
    argument, which raises [TypeError]; without children [min] raises
    [ValueError].  Two children whose estimates are one hour and three
    hours, for which the minimum is one hour, get the [TypeError]. *)
Theorem Any_estimate_timedelta_raises (subs : list cond) (dt : datetime) :
  estimate_timedelta (Any subs) dt =
    match subs with
    | [] => Raise (ValueError "min() arg is an empty sequence")
    | _ :: _ => Raise (TypeError "hasattr expected 2 arguments, got 1")
    end /\
  (let hour := 3600000000 in
   let in_1h := Subclass (Ok false) (Some (fun _ => Ok hour)) in
   let in_3h := Subclass (Ok false) (Some (fun _ => Ok (3 * hour))) in
   estimate_timedelta (Any_init [in_1h; in_3h]) dt =
     Raise (TypeError "hasattr expected 2 arguments, got 1") /\
   estimate_timedelta in_1h dt = Ok hour /\
   estimate_timedelta in_3h dt = Ok (3 * hour)).
Proof.
  split; [ destruct subs; reflexivity |].
  cbn. repeat split.
Qed.

(** The failure of [Any.estimate_timedelta] reaches an [All] that has an
    [Any] among its children. *)
Lemma All_estimate_timedelta_over_Any (c d : cond) (dt : datetime) :
  estimate_timedelta (All_init [Any (c :: nil); d]) dt =
  Raise (TypeError "hasattr expected 2 arguments, got 1").
Proof. reflexivity. Qed.

(** C2.  [TimeCondition.estimate_next] returns [dt] minus the left edge of
    the period rolled forward to [dt], the opposite of the left edge minus
    [dt]: for the window from 100 to 200 and [dt = 40], the window is 60
    ahead and the method returns -60. *)
Theorem estimate_next_is_reversed (p : Period) (dt : datetime) :
  estimate_next (Some p) dt = Ok (dt - left (rollforward p dt)) /\
  estimate_next (Some (window 100 200)) 40 = Ok (-60) /\
  left (rollforward (window 100 200) 40) - 40 = 60.
Proof. repeat split. Qed.

(** ** Claims about parsing *)

Lemma parse_condition_item_skips {A : Type} (repr : string -> string)
    (pre rest : list (@Parser A)) (s : string) :
  Forall (fun q => q s = Raise ParserError) pre ->
  parse_condition_item repr (pre ++ rest) s = parse_condition_item repr rest s.
Proof.
  induction 1 as [| q pre Hq _ IH]; cbn; [ reflexivity |].
  now rewrite Hq.
Qed.

(** X21.  An exception other than [ParserError] raised by a parser is not caught:
    it ends the parse, the later parsers not being tried. *)
Lemma parse_condition_item_propagates {A : Type} (repr : string -> string)
    (pre post : list (@Parser A)) (parser : @Parser A) (s : string) (e : exn) :
  Forall (fun q => q s = Raise ParserError) pre ->
  parser s = Raise e ->
  e <> ParserError ->
  parse_condition_item repr (pre ++ parser :: post) s = Raise e.
Proof.
  intros Hpre Hp He. rewrite parse_condition_item_skips by exact Hpre.
  cbn. rewrite Hp. destruct e; congruence.
Qed.

(** C8.  [parse_condition_item] tries the registered parsers in order: it
    returns what the first parser that matches returns, the parsers before
    it having raised [ParserError]; when every parser raises [ParserError]
    (or none is registered) it raises the [ValueError] that says the
    condition cannot be parsed.  Registering a parser puts it last. *)
Theorem parse_condition_item_first_match {A : Type} (repr : string -> string)
    (CONDITION_PARSERS : list (@Parser A)) (s : string) :
  (forall pre parser post r,
      CONDITION_PARSERS = pre ++ parser :: post ->
      Forall (fun q => q s = Raise ParserError) pre ->
      parser s = Ok r ->
      parse_condition_item repr CONDITION_PARSERS s = Ok r) /\
  (Forall (fun q => q s = Raise ParserError) CONDITION_PARSERS ->
   parse_condition_item repr CONDITION_PARSERS s =
   Raise (ValueError (String.append "Cannot parse the condition: " (repr s)))) /\
  (forall sentence r,
      Forall (fun q => q s = Raise ParserError) CONDITION_PARSERS ->
      sentence s = Ok r ->
      parse_condition_item repr
        (add_condition_parser sentence CONDITION_PARSERS) s = Ok r).
Proof.
  split; [| split ].
  - intros pre parser post r -> Hpre Hp.
    rewrite parse_condition_item_skips by exact Hpre.
    cbn. now rewrite Hp.
  - intros Hall.
    rewrite <- (app_nil_r CONDITION_PARSERS).
    now rewrite parse_condition_item_skips by exact Hall.
  - intros sentence r Hall Hs. unfold add_condition_parser.
    rewrite parse_condition_item_skips by exact Hall.
    cbn. now rewrite Hs.
Qed.

Lemma parse_condition_item_first_match_witness :
  let repr := fun s => String.append "'" (String.append s "'") in
  let never : @Parser cond := fun _ => Raise ParserError in
  let always : @Parser cond := fun _ => Ok AlwaysTrue in
  let daily : @Parser cond :=
    fun s => if String.eqb s "daily"
             then Ok (TimeCondition (Some (window 0 10)))
             else Raise ParserError in
  parse_condition_item repr [never; always; daily] "daily" = Ok AlwaysTrue /\
  parse_condition_item repr [never; daily] "hourly" =
    Raise (ValueError "Cannot parse the condition: 'hourly'").
Proof.
  intros repr never always daily.
  split.
  - destruct (parse_condition_item_first_match repr [never; always; daily]
                "daily") as (Hfirst & _ & _).
    apply (Hfirst [never] always [daily] AlwaysTrue eq_refl);
      [ repeat constructor | reflexivity ].
  - destruct (parse_condition_item_first_match repr [never; daily] "hourly")
      as (_ & Hnone & _).
    apply Hnone. repeat constructor.
Defined.

(** ** Trees are what the objects denote *)

(** The constructors on objects and the constructors on trees agree: the
    tree read back from a newly constructed object is the tree constructed
    from the trees of the arguments. *)

Lemma init_loop_flat_map (conds_of : Store.ref -> list Store.ref)
    (conditions acc : list Store.ref) :
  Store.init_loop conds_of acc conditions = acc ++ flat_map conds_of conditions.
Proof.
  revert acc; induction conditions as [| c rest IH]; intros acc; cbn.
  - now rewrite app_nil_r.
  - rewrite IH, <- app_assoc. reflexivity.
Qed.

Lemma map_option_Forall2 {A B : Type} (f : A -> option B) (l : list A)
    (ys : list B) :
  Store.map_option f l = Some ys <-> Forall2 (fun x y => f x = Some y) l ys.
Proof.
  revert ys; induction l as [| x rest IH]; intros ys; cbn.
  - split; [ intros [= <-]; constructor | intros H; now inversion H ].
  - destruct (f x) as [y |] eqn:Hx.
    + destruct (Store.map_option f rest) as [ys' |] eqn:Hrest.
      * split.
        -- intros [= <-]. constructor; [ exact Hx | now apply IH ].
        -- intros H. inversion H as [| ? y0 ? ys0 Hy Hys]; subst.
           apply IH in Hys. congruence.
      * split; [ discriminate |].
        intros H. inversion H as [| ? y0 ? ys0 Hy Hys]; subst.
        apply IH in Hys. discriminate.
    + split; [ discriminate |].
      intros H. inversion H; subst. congruence.
Qed.

Lemma denote_S (n : nat) (h : Store.heap) (r : Store.ref) :
  Store.denote (S n) h r =
  match Store.lookup h r with
  | None => None
  | Some (Store.OAny subs) =>
      option_map Any (Store.map_option (Store.denote n h) subs)
  | Some (Store.OAll subs) =>
      option_map All (Store.map_option (Store.denote n h) subs)
  | Some (Store.ONot condition) => option_map Not (Store.denote n h condition)
  | Some Store.OAlwaysTrue => Some AlwaysTrue
  | Some Store.OAlwaysFalse => Some AlwaysFalse
  | Some (Store.OTimeCondition period) => Some (TimeCondition period)
  | Some (Store.OSubclass b e) => Some (Subclass b e)
  end.
Proof. reflexivity. Qed.

(** More fuel reads the same tree. *)
Lemma denote_mono (n : nat) (h : Store.heap) :
  forall r t, Store.denote n h r = Some t -> Store.denote (S n) h r = Some t.
Proof.
  induction n as [| n IH]; intros r t H; [ discriminate |].
  rewrite denote_S in H. rewrite denote_S.
  destruct (Store.lookup h r) as [[subs | subs | c | | | p | b e] |];
    try exact H; try discriminate.
  - destruct (Store.map_option (Store.denote n h) subs) as [ts |] eqn:E;
      [| discriminate ].
    apply map_option_Forall2 in E.
    assert (E' : Store.map_option (Store.denote (S n) h) subs = Some ts).
    { apply map_option_Forall2.
      eapply Forall2_impl; [| exact E ]. intros x y. apply IH. }
    now rewrite E'.
  - destruct (Store.map_option (Store.denote n h) subs) as [ts |] eqn:E;
      [| discriminate ].
    apply map_option_Forall2 in E.
    assert (E' : Store.map_option (Store.denote (S n) h) subs = Some ts).
    { apply map_option_Forall2.
      eapply Forall2_impl; [| exact E ]. intros x y. apply IH. }
    now rewrite E'.
  - destruct (Store.denote n h c) as [t' |] eqn:E; [| discriminate ].
    now rewrite (IH _ _ E).
Qed.

(** Objects constructed later do not change the tree below a reference. *)
Lemma denote_frame (n : nat) (h h' : Store.heap) :
  forall r t, Store.denote n h r = Some t ->
              Store.denote n (h ++ h') r = Some t.
Proof.
  induction n as [| n IH]; intros r t H; [ discriminate |].
  rewrite denote_S in H. rewrite denote_S.
  destruct (Store.lookup h r) as [o |] eqn:Hr; [| discriminate ].
  assert (Hr' : Store.lookup (h ++ h') r = Some o).
  { unfold Store.lookup in *. rewrite nth_error_app1; [ exact Hr |].
    apply nth_error_Some. congruence. }
  rewrite Hr'.
  destruct o as [subs | subs | c | | | p | b e]; try exact H.
  - destruct (Store.map_option (Store.denote n h) subs) as [ts |] eqn:E;
      [| discriminate ].
    apply map_option_Forall2 in E.
    assert (E' : Store.map_option (Store.denote n (h ++ h')) subs = Some ts).
    { apply map_option_Forall2.
      eapply Forall2_impl; [| exact E ]. intros x y. apply IH. }
    now rewrite E'.
  - destruct (Store.map_option (Store.denote n h) subs) as [ts |] eqn:E;
      [| discriminate ].
    apply map_option_Forall2 in E.
    assert (E' : Store.map_option (Store.denote n (h ++ h')) subs = Some ts).
    { apply map_option_Forall2.
      eapply Forall2_impl; [| exact E ]. intros x y. apply IH. }
    now rewrite E'.
  - destruct (Store.denote n h c) as [t' |] eqn:E; [| discriminate ].
    now rewrite (IH _ _ E).
Qed.

Lemma Forall2_flat_map {A B C D : Type} (R : A -> B -> Prop)
    (R' : C -> D -> Prop) (f : A -> list C) (g : B -> list D)
    (l : list A) (l' : list B) :
  (forall x y, R x y -> Forall2 R' (f x) (g y)) ->
  Forall2 R l l' -> Forall2 R' (flat_map f l) (flat_map g l').
Proof.
  intros Hfg. induction 1 as [| x y l l' Hxy _ IH]; cbn; [ constructor |].
  apply Forall2_app; [ now apply Hfg | exact IH ].
Qed.

(** What an argument contributes as an object denotes what its tree
    contributes. *)
Lemma denote_Any_conds (n : nat) (h : Store.heap) (r : Store.ref) (t : cond) :
  Store.denote n h r = Some t ->
  Forall2 (fun x y => Store.denote n h x = Some y)
          (Store.Any_conds h r) (Any_conds t).
Proof.
  destruct n as [| n]; [ discriminate |]. intros H.
  pose proof H as H0. rewrite denote_S in H. unfold Store.Any_conds.
  destruct (Store.lookup h r) as [[subs | subs | c | | | p | b e] |];
    try discriminate.
  - destruct (Store.map_option (Store.denote n h) subs) as [ts |] eqn:E;
      [| discriminate ].
    injection H as <-. cbn. apply map_option_Forall2 in E.
    eapply Forall2_impl; [| exact E ]. intros x y. apply denote_mono.
  - destruct (Store.map_option (Store.denote n h) subs) as [ts |] eqn:E;
      [| discriminate ].
    injection H as <-. cbn. now repeat constructor.
  - destruct (Store.denote n h c) as [t' |] eqn:E; [| discriminate ].
    injection H as <-. cbn. now repeat constructor.
  - injection H as <-. cbn. now repeat constructor.
  - injection H as <-. cbn. now repeat constructor.
  - injection H as <-. cbn. now repeat constructor.
  - injection H as <-. cbn. now repeat constructor.
Qed.

Lemma denote_All_conds (n : nat) (h : Store.heap) (r : Store.ref) (t : cond) :
  Store.denote n h r = Some t ->
  Forall2 (fun x y => Store.denote n h x = Some y)
          (Store.All_conds h r) (All_conds t).
Proof.
  destruct n as [| n]; [ discriminate |]. intros H.
  pose proof H as H0. rewrite denote_S in H. unfold Store.All_conds.
  destruct (Store.lookup h r) as [[subs | subs | c | | | p | b e] |];
    try discriminate.
  - destruct (Store.map_option (Store.denote n h) subs) as [ts |] eqn:E;
      [| discriminate ].
    injection H as <-. cbn. now repeat constructor.
  - destruct (Store.map_option (Store.denote n h) subs) as [ts |] eqn:E;
      [| discriminate ].
    injection H as <-. cbn. apply map_option_Forall2 in E.
    eapply Forall2_impl; [| exact E ]. intros x y. apply denote_mono.
  - destruct (Store.denote n h c) as [t' |] eqn:E; [| discriminate ].
    injection H as <-. cbn. now repeat constructor.
  - injection H as <-. cbn. now repeat constructor.
  - injection H as <-. cbn. now repeat constructor.
  - injection H as <-. cbn. now repeat constructor.
  - injection H as <-. cbn. now repeat constructor.
Qed.

(** [Not(condition)] on objects denotes [Not_init] on trees. *)
Lemma denote_Not_init (n : nat) (h : Store.heap) (r : Store.ref) (t : cond) :
  Store.denote n h r = Some t ->
  Store.denote (S n) (fst (Store.Not_init h r)) (snd (Store.Not_init h r)) =
  Some (Not_init t).
Proof.
  intros H. rewrite denote_S. unfold Store.Not_init.
  rewrite lookup_alloc_new. cbn [fst Store.alloc].
  now rewrite (denote_frame n h _ r t H).
Qed.

(** [Any] and [All] called on objects denote [Any_init] and [All_init]
    on trees. *)
Lemma denote_Any_init (n : nat) (h : Store.heap)
    (conditions : list Store.ref) (ts : list cond) :
  Forall2 (fun r t => Store.denote n h r = Some t) conditions ts ->
  Store.denote (S n) (fst (Store.Any_init h conditions))
                     (snd (Store.Any_init h conditions)) =
  Some (Any_init ts).
Proof.
  intros H. rewrite denote_S. unfold Store.Any_init.
  rewrite lookup_alloc_new. cbn [fst Store.alloc].
  rewrite init_loop_flat_map, Any_init_children. cbn [app].
  assert (E : Store.map_option
                (Store.denote n (h ++ [Store.OAny (flat_map (Store.Any_conds h) conditions)]))
                (flat_map (Store.Any_conds h) conditions) =
              Some (flat_map Any_conds ts)).
  { apply map_option_Forall2.
    eapply Forall2_flat_map; [| exact H ].
    intros r t Hrt. cbv beta in Hrt.
    eapply Forall2_impl; [| exact (denote_Any_conds n h r t Hrt) ].
    intros x y. apply denote_frame. }
  now rewrite E.
Qed.

Lemma denote_All_init (n : nat) (h : Store.heap)
    (conditions : list Store.ref) (ts : list cond) :
  Forall2 (fun r t => Store.denote n h r = Some t) conditions ts ->
  Store.denote (S n) (fst (Store.All_init h conditions))
                     (snd (Store.All_init h conditions)) =
  Some (All_init ts).
Proof.
  intros H. rewrite denote_S. unfold Store.All_init.
  rewrite lookup_alloc_new. cbn [fst Store.alloc].
  rewrite init_loop_flat_map, All_init_children. cbn [app].
  assert (E : Store.map_option
                (Store.denote n (h ++ [Store.OAll (flat_map (Store.All_conds h) conditions)]))
                (flat_map (Store.All_conds h) conditions) =
              Some (flat_map All_conds ts)).
  { apply map_option_Forall2.
    eapply Forall2_flat_map; [| exact H ].
    intros r t Hrt. cbv beta in Hrt.
    eapply Forall2_impl; [| exact (denote_All_conds n h r t Hrt) ].
    intros x y. apply denote_frame. }
  now rewrite E.
Qed.

(** [~self] on objects denotes [invert] on trees, whichever method runs. *)
Lemma denote_invert (n : nat) (h : Store.heap) (r : Store.ref) (t : cond) :
  Store.denote n h r = Some t ->
  Store.denote (S n) (fst (Store.invert h r)) (snd (Store.invert h r)) =
  Some (invert t).
Proof.
  intros H. unfold Store.invert.
  destruct n as [| n]; [ discriminate |].
  pose proof H as H0. rewrite denote_S in H.
  destruct (Store.lookup h r) as [[subs | subs | c | | | p | b e] |] eqn:Hr;
    try discriminate.
  - destruct (Store.map_option (Store.denote n h) subs); [| discriminate ].
    injection H as <-. now apply denote_Not_init.
  - destruct (Store.map_option (Store.denote n h) subs); [| discriminate ].
    injection H as <-. now apply denote_Not_init.
  - destruct (Store.denote n h c) as [t' |] eqn:E; [| discriminate ].
    injection H as <-. cbn [fst snd invert].
    now apply denote_mono, denote_mono.
  - injection H as <-. now apply denote_Not_init.
  - injection H as <-. now apply denote_Not_init.
  - injection H as <-. now apply denote_Not_init.
  - injection H as <-. now apply denote_Not_init.
Qed.

Lemma Any_conds_alloc_old (h : Store.heap) (o o' : Store.obj) (r : Store.ref) :
  Store.lookup h r = Some o' ->
  Store.Any_conds (fst (Store.alloc h o)) r = Store.Any_conds h r.
Proof.
  intros H. unfold Store.Any_conds.
  now rewrite (lookup_alloc_old h o o' r H), H.
Qed.

Lemma All_conds_alloc_old (h : Store.heap) (o o' : Store.obj) (r : Store.ref) :
  Store.lookup h r = Some o' ->
  Store.All_conds (fst (Store.alloc h o)) r = Store.All_conds h r.
Proof.
  intros H. unfold Store.All_conds.
  now rewrite (lookup_alloc_old h o o' r H), H.
Qed.

(** X10.  Flattening on objects: the children of [Any(Any(a, b), c)] are the
    same references, in the same order, as the children of [Any(a, b, c)]. *)
Lemma flattening_references (h : Store.heap) (a b c : Store.ref)
    (oa ob oc : Store.obj) :
  Store.lookup h a = Some oa ->
  Store.lookup h b = Some ob ->
  Store.lookup h c = Some oc ->
  let (h1, ab) := Store.Any_init h [a; b] in
  let (h2, nested) := Store.Any_init h1 [ab; c] in
  let (h3, direct) := Store.Any_init h [a; b; c] in
  Store.subconditions_of h2 nested = Store.subconditions_of h3 direct /\
  Store.subconditions_of h3 direct =
    Some (Store.Any_conds h a ++ Store.Any_conds h b ++ Store.Any_conds h c).
Proof.
  intros Ha Hb Hc.
  set (inner := Store.OAny (Store.init_loop (Store.Any_conds h) [] [a; b])).
  pose proof (lookup_alloc_new h inner) as Hab.
  pose proof (Any_conds_alloc_old h inner oc c Hc) as Hc1.
  unfold Store.Any_init. fold inner.
  destruct (Store.alloc h inner) as [h1 ab] eqn:E1. cbn [fst snd] in *.
  set (outer := Store.OAny (Store.init_loop (Store.Any_conds h1) [] [ab; c])).
  pose proof (lookup_alloc_new h1 outer) as Hnested.
  destruct (Store.alloc h1 outer) as [h2 nested] eqn:E2. cbn [fst snd] in *.
  set (flat3 := Store.OAny (Store.init_loop (Store.Any_conds h) [] [a; b; c])).
  pose proof (lookup_alloc_new h flat3) as Hdirect.
  destruct (Store.alloc h flat3) as [h3 direct] eqn:E3. cbn [fst snd] in *.
  unfold Store.subconditions_of. rewrite Hnested, Hdirect.
  subst outer flat3. rewrite !init_loop_flat_map. cbn [flat_map app].
  rewrite Hc1. unfold Store.Any_conds at 1. rewrite Hab. subst inner.
  rewrite init_loop_flat_map. cbn [flat_map app].
  rewrite !app_nil_r, <- app_assoc. split; reflexivity.
Qed.

(** ** The clock *)

Lemma py_any_ext {A : Type} (f g : A -> result bool) (l : list A) :
  Forall (fun x => f x = g x) l -> py_any f l = py_any g l.
Proof.
  induction 1 as [| x rest Hx _ IH]; cbn; [ reflexivity |].
  now rewrite Hx, IH.
Qed.

Lemma py_all_ext {A : Type} (f g : A -> result bool) (l : list A) :
  Forall (fun x => f x = g x) l -> py_all f l = py_all g l.
Proof.
  induction 1 as [| x rest Hx _ IH]; cbn; [ reflexivity |].
  now rewrite Hx, IH.
Qed.

(** X11.  Outside test mode a pinned instant is ignored by every condition. *)
Lemma set_current_datetime_outside_test (clk : Clock) (value : datetime)
    (c : cond) :
  String.eqb (mode clk) "test" = false ->
  bool_ (set_current_datetime value clk) c = bool_ clk c.
Proof.
  intros Hmode. induction c as [subs IH | subs IH | c IH | | | p | r e]
    using cond_nested_ind; cbn [bool_]; try reflexivity.
  - now apply py_any_ext.
  - now apply py_all_ext.
  - now rewrite IH.
  - destruct p as [p |]; [| reflexivity ].
    unfold current_datetime, set_current_datetime. cbn. rewrite Hmode.
    now destruct (_current_datetime clk).
Qed.

(** In test mode a time condition is evaluated at the pinned instant. *)
Lemma set_current_datetime_in_test (clk : Clock) (value : datetime)
    (p : Period) :
  String.eqb (mode clk) "test" = true ->
  bool_ (set_current_datetime value clk) (from_period p) =
  Ok (contains p value).
Proof.
  intros Hmode. cbn. unfold current_datetime. cbn. now rewrite Hmode.
Qed.


(** * Further properties of the conditions *)

(** ** Evaluation *)

Section AnyAllOutcomes.
Context {A : Type}.
Variable truth : A -> result bool.

Lemma py_any_false_iff (l : list A) :
  py_any truth l = Ok false <-> Forall (fun y => truth y = Ok false) l.
Proof.
  induction l as [| y rest IH]; cbn.
  - split; [ constructor | reflexivity ].
  - destruct (truth y) as [[|] | e] eqn:Hy; cbn.
    + split; [ discriminate | intros H; inversion H; congruence ].
    + rewrite IH. split; [ now constructor | intros H; now inversion H ].
    + split; [ discriminate | intros H; inversion H; congruence ].
Qed.

Lemma py_all_true_iff (l : list A) :
  py_all truth l = Ok true <-> Forall (fun y => truth y = Ok true) l.
Proof.
  induction l as [| y rest IH]; cbn.
  - split; [ constructor | reflexivity ].
  - destruct (truth y) as [[|] | e] eqn:Hy; cbn.
    + rewrite IH. split; [ now constructor | intros H; now inversion H ].
    + split; [ discriminate | intros H; inversion H; congruence ].
    + split; [ discriminate | intros H; inversion H; congruence ].
Qed.

Lemma py_any_raise_iff (l : list A) (e : exn) :
  py_any truth l = Raise e <->
  exists pre x post, l = pre ++ x :: post /\
    Forall (fun y => truth y = Ok false) pre /\ truth x = Raise e.
Proof.
  induction l as [| y rest IH]; cbn.
  - split; [ discriminate |].
    intros (pre & x & post & Heq & _). now destruct pre.
  - destruct (truth y) as [[|] | e'] eqn:Hy; cbn.
    + split; [ discriminate |].
      intros (pre & x & post & Heq & Hpre & Hx).
      destruct pre as [| y' pre]; cbn in Heq; inversion Heq; subst.
      * congruence.
      * inversion Hpre; subst. congruence.
    + rewrite IH. split.
      * intros (pre & x & post & -> & Hpre & Hx).
        exists (y :: pre), x, post. split; [ reflexivity |].
        split; [ now constructor | exact Hx ].
      * intros (pre & x & post & Heq & Hpre & Hx).
        destruct pre as [| y' pre]; cbn in Heq; inversion Heq; subst.
        -- congruence.
        -- inversion Hpre; subst. now exists pre, x, post.
    + split.
      * intros [= ->]. exists [], y, rest.
        split; [ reflexivity |]. split; [ constructor | exact Hy ].
      * intros (pre & x & post & Heq & Hpre & Hx).
        destruct pre as [| y' pre]; cbn in Heq; inversion Heq; subst.
        -- congruence.
        -- inversion Hpre; subst. congruence.
Qed.

Lemma py_all_raise_iff (l : list A) (e : exn) :
  py_all truth l = Raise e <->
  exists pre x post, l = pre ++ x :: post /\
    Forall (fun y => truth y = Ok true) pre /\ truth x = Raise e.
Proof.
  induction l as [| y rest IH]; cbn.
  - split; [ discriminate |].
    intros (pre & x & post & Heq & _). now destruct pre.
  - destruct (truth y) as [[|] | e'] eqn:Hy; cbn.
    + rewrite IH. split.
      * intros (pre & x & post & -> & Hpre & Hx).
        exists (y :: pre), x, post. split; [ reflexivity |].
        split; [ now constructor | exact Hx ].
      * intros (pre & x & post & Heq & Hpre & Hx).
        destruct pre as [| y' pre]; cbn in Heq; inversion Heq; subst.
        -- congruence.
        -- inversion Hpre; subst. now exists pre, x, post.
    + split; [ discriminate |].
      intros (pre & x & post & Heq & Hpre & Hx).
      destruct pre as [| y' pre]; cbn in Heq; inversion Heq; subst.
      * congruence.
      * inversion Hpre; subst. congruence.
    + split.
      * intros [= ->]. exists [], y, rest.
        split; [ reflexivity |]. split; [ constructor | exact Hy ].
      * intros (pre & x & post & Heq & Hpre & Hx).
        destruct pre as [| y' pre]; cbn in Heq; inversion Heq; subst.
        -- congruence.
        -- inversion Hpre; subst. congruence.
Qed.
End AnyAllOutcomes.

(** X1.  Constructing an [Any] or an [All] absorbs the children of arguments of
    the same class, and this changes nothing to the evaluation: the
    composite evaluates as [any] or [all] over the constructor's own
    arguments, in their order, exceptions included. *)
Theorem constructors_evaluate_as_their_arguments (clk : Clock)
    (conditions : list cond) :
  bool_ clk (Any_init conditions) = py_any (bool_ clk) conditions /\
  bool_ clk (All_init conditions) = py_all (bool_ clk) conditions.
Proof. split; [ apply bool_Any_init | apply bool_All_init ]. Qed.

(** X2.  The three outcomes of evaluating an [Any]: true exactly when some child
    is true, all the children before it being false; false exactly when
    every child is false; and the exception [e] exactly when some child
    raises [e], all the children before it being false. *)
Theorem Any_bool_outcomes (clk : Clock) (subs : list cond) (e : exn) :
  (bool_ clk (Any subs) = Ok true <->
   exists pre x post, subs = pre ++ x :: post /\
     Forall (fun y => bool_ clk y = Ok false) pre /\ bool_ clk x = Ok true) /\
  (bool_ clk (Any subs) = Ok false <->
   Forall (fun y => bool_ clk y = Ok false) subs) /\
  (bool_ clk (Any subs) = Raise e <->
   exists pre x post, subs = pre ++ x :: post /\
     Forall (fun y => bool_ clk y = Ok false) pre /\ bool_ clk x = Raise e).
Proof.
  cbn [bool_]. split; [ apply py_any_true_iff |].
  split; [ apply py_any_false_iff | apply py_any_raise_iff ].
Qed.

(** X3.  The three outcomes of evaluating an [All]: false exactly when some
    child is false, all the children before it being true; true exactly
    when every child is true; and the exception [e] exactly when some child
    raises [e], all the children before it being true. *)
Theorem All_bool_outcomes (clk : Clock) (subs : list cond) (e : exn) :
  (bool_ clk (All subs) = Ok false <->
   exists pre x post, subs = pre ++ x :: post /\
     Forall (fun y => bool_ clk y = Ok true) pre /\ bool_ clk x = Ok false) /\
  (bool_ clk (All subs) = Ok true <->
   Forall (fun y => bool_ clk y = Ok true) subs) /\
  (bool_ clk (All subs) = Raise e <->
   exists pre x post, subs = pre ++ x :: post /\
     Forall (fun y => bool_ clk y = Ok true) pre /\ bool_ clk x = Raise e).
Proof.
  cbn [bool_]. split; [ apply py_all_false_iff |].
  split; [ apply py_all_true_iff | apply py_all_raise_iff ].
Qed.

(** ** Composition *)

(** X4.  Both laws of De Morgan hold of the constructors whatever the operands
    do: when an operand raises, the two sides raise the same exception, or
    neither reaches that operand. *)
Theorem de_morgan_laws_any_outcome (clk : Clock) (a b : cond) :
  bool_ clk (Not_init (All_init [a; b])) =
  bool_ clk (Any_init [Not_init a; Not_init b]) /\
  bool_ clk (Not_init (Any_init [a; b])) =
  bool_ clk (All_init [Not_init a; Not_init b]).
Proof.
  split; [ apply de_morgan_any_outcome |].
  unfold Not_init. cbn [bool_]. rewrite bool_All_init, bool_Any_init.
  cbn. destruct (bool_ clk a) as [[|] | ea]; cbn; try reflexivity.
  destruct (bool_ clk b) as [[|] | eb]; reflexivity.
Qed.

(** X5.  An argument of an [Any] that is itself an [Any] can be replaced by its
    own arguments, wherever it stands and whatever their number: the tree
    constructed is the same.  The same holds of [All]. *)
Theorem constructor_absorbs_anywhere (before inner after : list cond) :
  Any_init (before ++ Any_init inner :: after) =
  Any_init (before ++ inner ++ after) /\
  All_init (before ++ All_init inner :: after) =
  All_init (before ++ inner ++ after).
Proof.
  split.
  - rewrite !Any_init_children, !flat_map_app. cbn [flat_map Any_conds].
    reflexivity.
  - rewrite !All_init_children, !flat_map_app. cbn [flat_map All_conds].
    reflexivity.
Qed.

(** X6.  The operators [|] and [&] are associative on trees: [(a | b) | c] and
    [a | (b | c)] construct the same condition, and so do [(a & b) & c]
    and [a & (b & c)]. *)
Theorem operators_are_associative (a b c : cond) :
  or_ (or_ a b) c = or_ a (or_ b c) /\
  and_ (and_ a b) c = and_ a (and_ b c).
Proof.
  unfold or_, and_. split.
  - rewrite !Any_init_children. cbn. now rewrite !app_nil_r, app_assoc.
  - rewrite !All_init_children. cbn. now rewrite !app_nil_r, app_assoc.
Qed.

(** X7.  [AlwaysTrue] is neutral for [&] and [AlwaysFalse] for [|], on either
    side and whatever the other operand does; [AlwaysFalse] on the left of
    [&] and [AlwaysTrue] on the left of [|] decide the result without the
    other operand being evaluated. *)
Theorem constants_in_operators (clk : Clock) (a : cond) :
  bool_ clk (and_ a AlwaysTrue) = bool_ clk a /\
  bool_ clk (and_ AlwaysTrue a) = bool_ clk a /\
  bool_ clk (or_ a AlwaysFalse) = bool_ clk a /\
  bool_ clk (or_ AlwaysFalse a) = bool_ clk a /\
  bool_ clk (and_ AlwaysFalse a) = Ok false /\
  bool_ clk (or_ AlwaysTrue a) = Ok true.
Proof.
  unfold and_, or_. rewrite !bool_All_init, !bool_Any_init. cbn.
  destruct (bool_ clk a) as [[|] | e]; cbn; repeat split.
Qed.

Lemma invert_not_Not (c : cond) :
  (forall d, c <> Not d) -> invert c = Not c.
Proof.
  intros H. destruct c; try reflexivity. now elim (H c).
Qed.

(** X8.  Negating twice with the operator [~] evaluates as the condition
    itself, and gives an equal tree unless the condition is a [Not] of a
    [Not].  On objects: when the condition is not a [Not], the first [~]
    constructs a wrapper and the second returns the very object that was
    negated, constructing nothing; when the condition is a [Not] of [d]
    and [d] is not a [Not], the first [~] returns [d] and the second
    constructs a new [Not] of [d], an object other than the one negated,
    which is left as it was. *)
Theorem double_inversion (clk : Clock) (c : cond)
    (h : Store.heap) (r : Store.ref) (o : Store.obj) :
  Store.lookup h r = Some o ->
  bool_ clk (invert (invert c)) = bool_ clk c /\
  ((forall d, c <> Not (Not d)) -> invert (invert c) = c) /\
  ((forall d, o <> Store.ONot d) ->
   let (h1, n) := Store.invert h r in
   n <> r /\ Store.invert h1 n = (h1, r)) /\
  (forall d od,
     o = Store.ONot d ->
     Store.lookup h d = Some od ->
     (forall e, od <> Store.ONot e) ->
     Store.invert h r = (h, d) /\
     let (h2, nn) := Store.invert h d in
     nn <> r /\
     Store.lookup h2 nn = Some (Store.ONot d) /\
     Store.lookup h2 r = Some (Store.ONot d)).
Proof.
  intros Hr.
  split.
  { destruct c as [subs | subs | c | | | p | b e]; try reflexivity.
    destruct c as [subs | subs | c | | | p | b e]; try reflexivity.
    cbn. symmetry. apply fmap_negb_involutive. }
  split.
  { intros H.
    destruct c as [subs | subs | c | | | p | b e]; try reflexivity.
    destruct c as [subs | subs | c | | | p | b e]; try reflexivity.
    now elim (H c). }
  pose proof (lookup_Some_lt _ _ _ Hr) as Hlt.
  split.
  - intros Hnot.
    assert (E : Store.invert h r = Store.Not_init h r).
    { unfold Store.invert. rewrite Hr.
      destruct o; try reflexivity. now elim (Hnot condition). }
    rewrite E. unfold Store.Not_init.
    pose proof (lookup_alloc_new h (Store.ONot r)) as Hn.
    destruct (Store.alloc h (Store.ONot r)) as [h1 n] eqn:E1.
    cbn [fst snd] in Hn. split.
    + unfold Store.alloc in E1. injection E1 as _ <-. lia.
    + unfold Store.invert. now rewrite Hn.
  - intros d od -> Hd Hnot.
    split; [ unfold Store.invert; now rewrite Hr |].
    assert (E : Store.invert h d = Store.Not_init h d).
    { unfold Store.invert. rewrite Hd.
      destruct od; try reflexivity. now elim (Hnot condition). }
    rewrite E. unfold Store.Not_init.
    pose proof (lookup_alloc_new h (Store.ONot d)) as Hnn.
    pose proof (lookup_alloc_old h (Store.ONot d) _ r Hr) as Hr'.
    destruct (Store.alloc h (Store.ONot d)) as [h2 nn] eqn:E2.
    cbn [fst snd] in *. split; [| split; assumption ].
    unfold Store.alloc in E2. injection E2 as _ <-. lia.
Qed.

Lemma double_inversion_witness :
  let clk := {| mode := "prod"; _current_datetime := None;
                datetime_now := 0 |} in
  let h := [Store.OAlwaysTrue; Store.ONot 0%nat] in
  (let (h1, n) := Store.invert h 0%nat in
   n <> 0%nat /\ Store.invert h1 n = (h1, 0%nat)) /\
  Store.invert h 1%nat = (h, 0%nat) /\
  (let (h2, nn) := Store.invert h 0%nat in
   nn <> 1%nat /\ Store.lookup h2 nn = Some (Store.ONot 0%nat)) /\
  invert (invert (Not_init AlwaysTrue)) = Not_init AlwaysTrue.
Proof.
  intros clk h.
  destruct (double_inversion clk (Not_init AlwaysTrue) h 0%nat
              Store.OAlwaysTrue eq_refl) as (_ & Htree & Hleaf & _).
  destruct (double_inversion clk AlwaysTrue h 1%nat
              (Store.ONot 0%nat) eq_refl) as (_ & _ & _ & Hnot).
  split; [ apply Hleaf; intros d; discriminate |].
  destruct (Hnot 0%nat Store.OAlwaysTrue eq_refl eq_refl
              ltac:(intros e; discriminate)) as [H1 H2].
  split; [ exact H1 |].
  split.
  - cbn in H2 |- *. destruct H2 as (Hne & Hnew & _). now split.
  - apply Htree. intros d. discriminate.
Defined.

(** ** The clock in test mode *)



Lemma set_current_datetime_outside_test_witness :
  let clk := {| mode := "prod"; _current_datetime := None;
                datetime_now := 150 |} in
  let c := All_init [from_period (window 100 200); AlwaysTrue] in
  bool_ (set_current_datetime 500 clk) c = bool_ clk c.
Proof.
  intros clk c.
  exact (set_current_datetime_outside_test clk 500 c eq_refl).
Defined.

(** ** [cycle] *)

Lemma same_shape_is_TimeCondition (c c' : cond) :
  same_shape c c' -> is_TimeCondition c = is_TimeCondition c'.
Proof. now destruct 1. Qed.

Lemma cycle_children_same (subs subs' : list cond) :
  Forall (fun x => forall c', same_shape x c' -> cycle x = cycle c') subs ->
  Forall2 same_shape subs subs' ->
  map cycle subs = map cycle subs' /\
  forallb is_TimeCondition subs = forallb is_TimeCondition subs'.
Proof.
  intros IH HF. induction HF as [| x y l l' Hxy _ IHl]; [ now split |].
  inversion IH as [| ? ? Hx Hl]; subst. cbn.
  destruct (IHl Hl) as [-> ->].
  now rewrite (Hx _ Hxy), (same_shape_is_TimeCondition _ _ Hxy).
Qed.

(** X13.  The cycle of a condition does not depend on the periods of the time
    conditions in it: [TimeCondition] inherits the cycle of
    [BaseCondition], so two conditions that differ only in their periods
    have the same cycle. *)
Theorem cycle_ignores_periods (c c' : cond) :
  same_shape c c' -> cycle c = cycle c'.
Proof.
  revert c'.
  induction c as [subs IH | subs IH | c IH | | | p | r e]
    using cond_nested_ind; intros c' H; inversion H; subst; try reflexivity.
  - cbn [cycle].
    match goal with HF : Forall2 same_shape subs _ |- _ =>
      destruct (cycle_children_same _ _ IH HF) as [-> ->] end.
    reflexivity.
  - cbn [cycle].
    match goal with HF : Forall2 same_shape subs _ |- _ =>
      destruct (cycle_children_same _ _ IH HF) as [-> _] end.
    reflexivity.
  - cbn [cycle].
    match goal with HS : same_shape c _ |- _ =>
      rewrite (same_shape_is_TimeCondition _ _ HS), (IH _ HS) end.
    reflexivity.
Qed.

Lemma cycle_ignores_periods_witness :
  cycle (Any_init [from_period (window 0 10); from_period (window 20 30)]) =
  cycle (Any_init [from_period (window 5 6); TimeCondition None]).
Proof.
  apply cycle_ignores_periods. cbn. repeat constructor.
Defined.

(** ** [apply] *)

Lemma apply_Any (func : cond -> result cond) (subs : list cond) :
  apply func (Any subs) =
  (subconds <- for_each (apply_subcond func) subs ;; Ok (Any_init subconds)).
Proof. reflexivity. Qed.

Lemma apply_All (func : cond -> result cond) (subs : list cond) :
  apply func (All subs) =
  (subconds <- for_each (apply_subcond func) subs ;; Ok (All_init subconds)).
Proof. reflexivity. Qed.

Lemma apply_Not (func : cond -> result cond) (c : cond) :
  apply func (Not c) =
  (subcond <- apply_subcond func c ;; Ok (Not_init subcond)).
Proof. reflexivity. Qed.

Lemma apply_subcond_container (func : cond -> result cond) (c : cond) :
  is_container c = true -> apply_subcond func c = apply func c.
Proof. destruct c; cbn; congruence. Qed.

Lemma apply_subcond_leaf (func : cond -> result cond) (c : cond) :
  is_container c = false -> apply_subcond func c = func c.
Proof. destruct c; cbn; congruence. Qed.

Section ForEachFacts.
Context {A B : Type}.
Variable body : A -> result B.

Lemma for_each_Ok (R : A -> B -> Prop) (l : list A) :
  Forall (fun x => exists y, body x = Ok y /\ R x y) l ->
  exists ys, for_each body l = Ok ys /\ Forall2 R l ys.
Proof.
  induction 1 as [| x rest (y & Hy & HR) _ (ys & Hys & HF)]; cbn.
  - exists []. split; [ reflexivity | constructor ].
  - rewrite Hy, Hys. cbn. exists (y :: ys).
    split; [ reflexivity | now constructor ].
Qed.

Lemma for_each_inv (l : list A) (ys : list B) :
  for_each body l = Ok ys -> Forall2 (fun x y => body x = Ok y) l ys.
Proof.
  revert ys. induction l as [| x rest IH]; cbn; intros ys H.
  - injection H as <-. constructor.
  - destruct (body x) as [y | e] eqn:Hx; [| discriminate ].
    destruct (for_each body rest) as [ys' | e] eqn:Hrest; [| discriminate ].
    cbn in H. injection H as <-. constructor; [ exact Hx | now apply IH ].
Qed.
End ForEachFacts.

Lemma py_any_Forall2 {A B : Type} (f : A -> result bool)
    (g : B -> result bool) (l : list A) (l' : list B) :
  Forall2 (fun x y => g y = f x) l l' -> py_any g l' = py_any f l.
Proof.
  induction 1 as [| x y l l' Hxy _ IH]; cbn; [ reflexivity |].
  now rewrite Hxy, IH.
Qed.

Lemma py_all_Forall2 {A B : Type} (f : A -> result bool)
    (g : B -> result bool) (l : list A) (l' : list B) :
  Forall2 (fun x y => g y = f x) l l' -> py_all g l' = py_all f l.
Proof.
  induction 1 as [| x y l l' Hxy _ IH]; cbn; [ reflexivity |].
  now rewrite Hxy, IH.
Qed.

Lemma apply_subcond_preserves_evaluation (clk : Clock)
    (func : cond -> result cond) :
  (forall x, is_container x = false ->
             exists y, func x = Ok y /\ bool_ clk y = bool_ clk x) ->
  forall c, exists c',
    apply_subcond func c = Ok c' /\ bool_ clk c' = bool_ clk c.
Proof.
  intros Hfunc.
  induction c as [subs IH | subs IH | c IH | | | p | r e]
    using cond_nested_ind;
    try (apply Hfunc; reflexivity).
  - cbn [apply_subcond]. rewrite apply_Any.
    destruct (for_each_Ok (apply_subcond func)
                (fun x y => bool_ clk y = bool_ clk x) subs IH)
      as (ys & -> & HF).
    cbn. eexists. split; [ reflexivity |].
    rewrite bool_Any_init. cbn [bool_]. now apply py_any_Forall2.
  - cbn [apply_subcond]. rewrite apply_All.
    destruct (for_each_Ok (apply_subcond func)
                (fun x y => bool_ clk y = bool_ clk x) subs IH)
      as (ys & -> & HF).
    cbn. eexists. split; [ reflexivity |].
    rewrite bool_All_init. cbn [bool_]. now apply py_all_Forall2.
  - cbn [apply_subcond]. rewrite apply_Not.
    destruct IH as (c' & -> & Hc'). cbn. eexists. split; [ reflexivity |].
    unfold Not_init. cbn [bool_]. now rewrite Hc'.
Qed.

(** X14.  When [func] returns, for each condition that is not a container, a
    condition that evaluates as its argument does, [apply] returns for
    every container a condition that evaluates as the container does:
    constructing the containers again changes no truth value and no
    exception. *)
Theorem apply_preserves_evaluation (clk : Clock)
    (func : cond -> result cond) (self : cond) :
  (forall x, is_container x = false ->
             exists y, func x = Ok y /\ bool_ clk y = bool_ clk x) ->
  is_container self = true ->
  exists c', apply func self = Ok c' /\ bool_ clk c' = bool_ clk self.
Proof.
  intros Hfunc Hself. rewrite <- (apply_subcond_container func self Hself).
  now apply apply_subcond_preserves_evaluation.
Qed.

Lemma apply_preserves_evaluation_witness :
  let clk := {| mode := "prod"; _current_datetime := None;
                datetime_now := 0 |} in
  let func := fun x => Ok (Subclass (bool_ clk x) None) in
  let self := Any_init [AlwaysFalse; Not_init (All_init [AlwaysTrue])] in
  exists c', apply func self = Ok c' /\ bool_ clk c' = bool_ clk self.
Proof.
  intros clk func self.
  apply (apply_preserves_evaluation clk func self).
  - intros x _. exists (Subclass (bool_ clk x) None). now split.
  - reflexivity.
Defined.

Lemma for_each_same {A : Type} (body : A -> result A) (l : list A) :
  Forall (fun x => body x = Ok x) l -> for_each body l = Ok l.
Proof.
  induction 1 as [| x rest Hx _ IH]; cbn; [ reflexivity |].
  now rewrite Hx, IH.
Qed.

Lemma flat_map_Any_conds_flat (subs : list cond) :
  Forall (fun x => is_Any x = false) subs -> flat_map Any_conds subs = subs.
Proof.
  induction 1 as [| x rest Hx _ IH]; cbn; [ reflexivity |].
  now rewrite (Any_conds_not_Any x Hx), IH.
Qed.

Lemma flat_map_All_conds_flat (subs : list cond) :
  Forall (fun x => is_All x = false) subs -> flat_map All_conds subs = subs.
Proof.
  induction 1 as [| x rest Hx _ IH]; cbn; [ reflexivity |].
  now rewrite (All_conds_not_All x Hx), IH.
Qed.

Lemma flat_children (p : cond -> bool) (subs : list cond) :
  forallb (fun x => negb (p x) && flat x) subs = true ->
  Forall (fun x => flat x = true) subs.
Proof.
  intros H. apply Forall_forall. intros x Hx.
  rewrite forallb_forall in H. specialize (H x Hx).
  now apply andb_prop in H as [_ H].
Qed.

Lemma apply_subcond_same (c : cond) :
  flat c = true -> apply_subcond Ok c = Ok c.
Proof.
  induction c as [subs IH | subs IH | c IH | | | p | r e]
    using cond_nested_ind; intros Hflat; try reflexivity.
  - cbn [apply_subcond]. rewrite apply_Any.
    rewrite for_each_same.
    + cbn. rewrite Any_init_children.
      now rewrite (flat_map_Any_conds_flat subs (flat_Any_children subs Hflat)).
    + pose proof (flat_children is_Any subs Hflat) as Hsubs.
      rewrite Forall_forall in *. intros x Hx. apply IH; auto.
  - cbn [apply_subcond]. rewrite apply_All.
    rewrite for_each_same.
    + cbn. rewrite All_init_children.
      now rewrite (flat_map_All_conds_flat subs (flat_All_children subs Hflat)).
    + pose proof (flat_children is_All subs Hflat) as Hsubs.
      rewrite Forall_forall in *. intros x Hx. apply IH; auto.
  - cbn [apply_subcond]. rewrite apply_Not. now rewrite (IH Hflat).
Qed.

(** X15.  Applying the function that returns its argument to a container in
    which no [Any] is a child of an [Any] and no [All] a child of an [All]
    (as the constructors build them) returns an equal condition. *)
Theorem apply_identity (self : cond) :
  flat self = true ->
  is_container self = true ->
  apply Ok self = Ok self.
Proof.
  intros Hflat Hself. rewrite <- (apply_subcond_container Ok self Hself).
  now apply apply_subcond_same.
Qed.

Lemma apply_identity_witness :
  let self := All_init [Any_init [AlwaysTrue; Not_init AlwaysFalse];
                        TimeCondition None] in
  apply Ok self = Ok self.
Proof.
  intros self. apply (apply_identity self); reflexivity.
Defined.

Lemma apply_subcond_flat (func : cond -> result cond) :
  (forall x y, is_container x = false -> func x = Ok y -> flat y = true) ->
  forall c c', apply_subcond func c = Ok c' -> flat c' = true.
Proof.
  intros Hfunc.
  induction c as [subs IH | subs IH | c IH | | | p | r e]
    using cond_nested_ind; intros c' H;
    try (cbn in H; eapply Hfunc; [| exact H ]; reflexivity).
  - cbn [apply_subcond] in H. rewrite apply_Any in H.
    destruct (for_each (apply_subcond func) subs) as [ys | e] eqn:E;
      [| discriminate ].
    cbn in H. injection H as <-. apply Any_init_flat.
    apply for_each_inv in E. clear -IH E.
    induction E as [| x y l l' Hxy _ IHl]; [ intros c [] |].
    inversion IH as [| ? ? Hx Hl]; subst.
    intros c [<- | Hc]; [ now apply (Hx _ Hxy) | now apply IHl ].
  - cbn [apply_subcond] in H. rewrite apply_All in H.
    destruct (for_each (apply_subcond func) subs) as [ys | e] eqn:E;
      [| discriminate ].
    cbn in H. injection H as <-. apply All_init_flat.
    apply for_each_inv in E. clear -IH E.
    induction E as [| x y l l' Hxy _ IHl]; [ intros c [] |].
    inversion IH as [| ? ? Hx Hl]; subst.
    intros c [<- | Hc]; [ now apply (Hx _ Hxy) | now apply IHl ].
  - cbn [apply_subcond] in H. rewrite apply_Not in H.
    destruct (apply_subcond func c) as [y | e] eqn:E; [| discriminate ].
    cbn in H. injection H as <-. cbn. now apply IH.
Qed.

(** X16.  Whatever the container it is given, even one with an [Any] inside an
    [Any], [apply] returns a condition without an [Any] as the child of an
    [Any] or an [All] as the child of an [All], provided the conditions
    that [func] returns have none. *)
Theorem apply_result_is_flat (func : cond -> result cond) (self c' : cond) :
  (forall x y, is_container x = false -> func x = Ok y -> flat y = true) ->
  apply func self = Ok c' ->
  flat c' = true.
Proof.
  intros Hfunc H. destruct (is_container self) eqn:Hself.
  - rewrite <- (apply_subcond_container func self Hself) in H.
    now apply (apply_subcond_flat func Hfunc self).
  - destruct self; cbn in Hself; try discriminate; cbn in H; discriminate.
Qed.

Lemma apply_result_is_flat_witness :
  let nested := Any [Any [AlwaysTrue; Any [AlwaysFalse]]; AlwaysTrue] in
  flat nested = false /\
  flat (Any_init [AlwaysTrue; AlwaysFalse; AlwaysTrue]) = true.
Proof.
  intros nested. split; [ reflexivity |].
  apply (apply_result_is_flat Ok nested).
  - intros x y Hx [= <-]. now destruct x.
  - reflexivity.
Defined.

(** ** Estimates of an [All] *)

Lemma py_max_raises {A : Type} (item : A -> result timedelta)
    (pre : list A) (x : A) (post : list A) (vs : list timedelta) (e : exn) :
  Forall2 (fun y v => item y = Ok v) pre vs ->
  item x = Raise e ->
  py_max item (pre ++ x :: post) = Raise e.
Proof.
  intros Hpre Hx. destruct Hpre as [| y v pre vs Hy Hpre]; cbn.
  - now rewrite Hx.
  - rewrite Hy. cbn. now apply (py_max_from_raises item pre x post vs).
Qed.

(** X17.  The estimate of an [All] fails as its first failing child does: when
    the children before [x] contribute a value and [x], which has the
    method, raises [e], the [All] raises [e], whatever comes after [x]. *)
Theorem All_estimate_timedelta_first_failure (pre post : list cond)
    (x : cond) (vs : list timedelta) (dt : datetime) (e : exn) :
  Forall2 (contributes dt) pre vs ->
  hasattr_estimate_timedelta x = true ->
  estimate_timedelta x dt = Raise e ->
  estimate_timedelta (All (pre ++ x :: post)) dt = Raise e.
Proof.
  intros Hpre Hhas Hx. cbn [estimate_timedelta].
  apply (py_max_raises _ pre x post vs).
  - now apply contributes_item.
  - now rewrite Hhas.
Qed.

Lemma All_estimate_timedelta_first_failure_witness :
  let in_1h := Subclass (Ok false) (Some (fun _ => Ok 3600000000)) in
  estimate_timedelta
    (All ([in_1h; AlwaysTrue] ++ Not (Any [in_1h]) :: [in_1h])) 0 =
  Raise (TypeError "hasattr expected 2 arguments, got 1").
Proof.
  intros in_1h.
  apply (All_estimate_timedelta_first_failure [in_1h; AlwaysTrue] [in_1h]
           (Not (Any [in_1h])) [3600000000; timedelta_resolution]).
  - repeat constructor.
  - reflexivity.
  - reflexivity.
Defined.

Lemma py_max_from_constant {A : Type} (item : A -> result timedelta)
    (v : timedelta) (l : list A) :
  Forall (fun x => item x = Ok v) l -> py_max_from item v l = Ok v.
Proof.
  induction 1 as [| x rest Hx _ IH]; cbn; [ reflexivity |].
  rewrite Hx. cbn. now rewrite Z.gtb_ltb, Z.ltb_irrefl.
Qed.

(** X18.  An [All] with at least one child, none of which has the method
    [estimate_timedelta], estimates the resolution of [timedelta], one
    microsecond.  The constants and the time conditions are such children:
    the method of [TimeCondition] is [estimate_next], which [All] does not
    call. *)
Theorem All_estimate_timedelta_without_method (subs : list cond)
    (dt : datetime) :
  subs <> [] ->
  Forall (fun c => hasattr_estimate_timedelta c = false) subs ->
  estimate_timedelta (All subs) dt = Ok timedelta_resolution.
Proof.
  intros Hne Hsubs. cbn [estimate_timedelta].
  destruct Hsubs as [| c rest Hc Hrest]; [ now elim Hne |].
  cbn. rewrite Hc. cbn. apply py_max_from_constant.
  eapply Forall_impl; [| exact Hrest ]. cbn. now intros x ->.
Qed.

Lemma All_estimate_timedelta_without_method_witness :
  estimate_timedelta
    (All_init [from_period (window 100 200); from_period (window 300 400)])
    40 = Ok timedelta_resolution.
Proof.
  apply All_estimate_timedelta_without_method.
  - discriminate.
  - repeat constructor.
Defined.


(** ** Parsing *)

(** X20.  [parse_condition_item] returns a value exactly when some registered
    parser returns it, every parser before it having raised [ParserError]:
    it never returns what no parser produced, nor the result of a parser
    that stands behind one that matched. *)
Theorem parse_condition_item_returns_iff {A : Type}
    (repr : string -> string) (CONDITION_PARSERS : list (@Parser A))
    (s : string) (r : A) :
  parse_condition_item repr CONDITION_PARSERS s = Ok r <->
  exists pre parser post,
    CONDITION_PARSERS = pre ++ parser :: post /\
    Forall (fun q => q s = Raise ParserError) pre /\
    parser s = Ok r.
Proof.
  split.
  - induction CONDITION_PARSERS as [| q rest IH]; cbn; [ discriminate |].
    destruct (q s) as [a | e] eqn:Hq.
    + intros [= ->]. exists [], q, rest.
      split; [ reflexivity |]. split; [ constructor | exact Hq ].
    + destruct e; try discriminate.
      intros H. destruct (IH H) as (pre & parser & post & -> & Hpre & Hp).
      exists (q :: pre), parser, post.
      split; [ reflexivity |]. split; [ now constructor | exact Hp ].
  - intros (pre & parser & post & -> & Hpre & Hp).
    rewrite parse_condition_item_skips by exact Hpre.
    cbn. now rewrite Hp.
Qed.

(** X22.  Registering one more parser changes nothing for a string that a parser
    registered before already handles, by a value or by an exception other
    than [ParserError]. *)
Theorem registering_keeps_earlier_results {A : Type}
    (repr : string -> string) (CONDITION_PARSERS : list (@Parser A))
    (sentence : @Parser A) (s : string) :
  Exists (fun q => q s <> Raise ParserError) CONDITION_PARSERS ->
  parse_condition_item repr
    (add_condition_parser sentence CONDITION_PARSERS) s =
  parse_condition_item repr CONDITION_PARSERS s.
Proof.
  unfold add_condition_parser.
  induction 1 as [q rest Hq | q rest _ IH]; cbn.
  - destruct (q s) as [a | e]; [ reflexivity |].
    destruct e; try reflexivity. now elim Hq.
  - destruct (q s) as [a | e]; [ reflexivity |].
    destruct e; try reflexivity. exact IH.
Qed.

Lemma registering_keeps_earlier_results_witness :
  let repr := fun s => s in
  let daily : @Parser cond :=
    fun s => if String.eqb s "daily" then Ok AlwaysTrue
             else Raise ParserError in
  let anything : @Parser cond := fun _ => Ok AlwaysFalse in
  parse_condition_item repr (add_condition_parser anything [daily]) "daily" =
  parse_condition_item repr [daily] "daily".
Proof.
  intros repr daily anything.
  apply registering_keeps_earlier_results.
  constructor. discriminate.
Defined.

Lemma parse_condition_item_propagates_witness :
  let repr := fun s => s in
  let never : @Parser cond := fun _ => Raise ParserError in
  let broken : @Parser cond := fun _ => Raise (TypeError "bad argument") in
  let always : @Parser cond := fun _ => Ok AlwaysTrue in
  parse_condition_item repr ([never] ++ broken :: [always]) "daily" =
  Raise (TypeError "bad argument").
Proof.
  intros repr never broken always.
  apply (parse_condition_item_propagates repr [never] [always] broken).
  - repeat constructor.
  - reflexivity.
  - discriminate.
Defined.

(** ** Witnesses of the invariants of construction *)

(** X9.  Flatness is an invariant of construction, at every depth: in a
    condition built by the constructors, however the calls are nested, no
    [Any] is a child of an [Any] and no [All] a child of an [All]; in
    particular the children of an [Any] so built are not [Any] and those of
    an [All] are not [All]. *)
Theorem construction_keeps_conditions_flat (c : cond) :
  constructed c ->
  flat c = true /\
  (forall subs, c = Any subs -> Forall (fun x => is_Any x = false) subs) /\
  (forall subs, c = All subs -> Forall (fun x => is_All x = false) subs).
Proof.
  intros H. pose proof (constructed_flat c H) as Hflat.
  split; [ exact Hflat |]. split.
  - intros subs ->. now apply flat_Any_children.
  - intros subs ->. now apply flat_All_children.
Qed.

Lemma construction_keeps_conditions_flat_witness :
  flat (Any_init [Any_init [AlwaysTrue; Any_init [AlwaysFalse]];
                  All_init [All_init [AlwaysTrue]; Not_init AlwaysTrue]]) =
  true.
Proof.
  apply construction_keeps_conditions_flat.
  apply constructed_Any. intros c [<- | [<- | []]].
  - apply constructed_Any. intros c [<- | [<- | []]].
    + constructor.
    + apply constructed_Any. intros c [<- | []]. constructor.
  - apply constructed_All. intros c [<- | [<- | []]].
    + apply constructed_All. intros c [<- | []]. constructor.
    + repeat constructor.
Defined.

Lemma flattening_references_witness :
  let h := [Store.OAlwaysTrue; Store.OAlwaysFalse; Store.OTimeCondition None] in
  let (h1, ab) := Store.Any_init h [0%nat; 1%nat] in
  let (h2, nested) := Store.Any_init h1 [ab; 2%nat] in
  let (h3, direct) := Store.Any_init h [0%nat; 1%nat; 2%nat] in
  Store.subconditions_of h2 nested = Store.subconditions_of h3 direct /\
  Store.subconditions_of h3 direct =
    Some (Store.Any_conds h 0%nat ++ Store.Any_conds h 1%nat
          ++ Store.Any_conds h 2%nat).
Proof.
  exact (flattening_references
           [Store.OAlwaysTrue; Store.OAlwaysFalse; Store.OTimeCondition None]
           0%nat 1%nat 2%nat _ _ _ eq_refl eq_refl eq_refl).
Defined.

(** * Properties of the queue handler *)

Section QueueFacts.
Variables Args ExcInfo Rest : Type.
Variable format :
  Queue.LogRecord Args ExcInfo Rest ->
  result (Queue.LogRecord Args ExcInfo Rest * string).

Let LogRecord : Type := Queue.LogRecord Args ExcInfo Rest.
Let heap : Type := Queue.heap Args ExcInfo Rest.

Lemma length_store (h : heap) (r : Queue.ref) (v : LogRecord) :
  length (Queue.store h r v) = length h.
Proof.
  revert r; induction h as [| x h IH]; intros [| r]; cbn; auto.
Qed.

Lemma nth_error_store_same (h : heap) (r : Queue.ref) (v : LogRecord) :
  (r < length h)%nat -> nth_error (Queue.store h r v) r = Some v.
Proof.
  revert r; induction h as [| x h IH]; intros [| r] Hr; cbn in *;
    try lia; [ reflexivity |].
  apply IH. lia.
Qed.

Lemma nth_error_store_other (h : heap) (r r' : Queue.ref) (v : LogRecord) :
  r' <> r -> nth_error (Queue.store h r v) r' = nth_error h r'.
Proof.
  revert r r'; induction h as [| x h IH]; intros [| r] [| r'] Hne; cbn;
    try reflexivity; try congruence.
  apply IH. congruence.
Qed.

Lemma setattr_same (assign : LogRecord -> LogRecord) (h : heap)
    (r : Queue.ref) (v : LogRecord) :
  nth_error h r = Some v ->
  nth_error (Queue.setattr assign h r) r = Some (assign v).
Proof.
  intros H. unfold Queue.setattr. rewrite H.
  apply nth_error_store_same. apply nth_error_Some. congruence.
Qed.

Lemma setattr_other (assign : LogRecord -> LogRecord) (h : heap)
    (r r' : Queue.ref) :
  r' <> r ->
  nth_error (Queue.setattr assign h r) r' = nth_error h r'.
Proof.
  intros H. unfold Queue.setattr.
  destruct (nth_error h r); [ now apply nth_error_store_other | reflexivity ].
Qed.

Lemma length_setattr (assign : LogRecord -> LogRecord) (h : heap)
    (r : Queue.ref) :
  length (Queue.setattr assign h r) = length h.
Proof.
  unfold Queue.setattr.
  destruct (nth_error h r); [ apply length_store | reflexivity ].
Qed.

(** X23.  What [QueueHandler.prepare] does when [format] returns: it returns a
    new record, which has lost [args] and [exc_info], has the formatted
    string as [message], and keeps [msg], [exc_text] and the rest as
    [format] left them; the record it was given is as [format] left it,
    [args] and [exc_info] included; and no other record is touched. *)
Theorem prepare_returns_a_cleared_copy (h : heap) (record : Queue.ref)
    (r r1 : LogRecord) (formatted : string) :
  nth_error h record = Some r ->
  format r = Ok (r1, formatted) ->
  exists h',
    Queue.prepare format h record = Ok (h', length h) /\
    length h <> record /\
    nth_error h' (length h) =
      Some {| Queue.msg := Queue.msg r1; Queue.args := None;
              Queue.exc_info := None; Queue.exc_text := Queue.exc_text r1;
              Queue.message := Some formatted;
              Queue.rest := Queue.rest r1 |} /\
    nth_error h' record = Some r1 /\
    (forall other, other <> record -> (other < length h)%nat ->
                   nth_error h' other = nth_error h other).
Proof.
  intros Hr Hf.
  assert (Hlt : (record < length h)%nat)
    by (apply nth_error_Some; congruence).
  unfold Queue.prepare. rewrite Hr, Hf. cbn [bind].
  set (h1 := Queue.store h record r1).
  assert (H1 : nth_error h1 record = Some r1)
    by now apply nth_error_store_same.
  assert (Hlen1 : length h1 = length h) by apply length_store.
  unfold Queue.copy. rewrite H1, Hlen1.
  set (h2 := h1 ++ [r1]).
  assert (H2 : nth_error h2 (length h) = Some r1).
  { unfold h2. rewrite nth_error_app2 by lia.
    now rewrite Hlen1, Nat.sub_diag. }
  pose proof (setattr_same (Queue.set_message (Some formatted)) _ _ _ H2)
    as H3.
  pose proof (setattr_same (Queue.set_args None) _ _ _ H3) as H4.
  pose proof (setattr_same (Queue.set_exc_info None) _ _ _ H4) as H5.
  eexists. split; [ reflexivity |].
  split; [ lia |]. split; [ exact H5 |].
  split.
  { rewrite !setattr_other by lia.
    unfold h2. rewrite nth_error_app1 by lia. exact H1. }
  intros other Hne Hother.
  rewrite !setattr_other by lia.
  unfold h2. rewrite nth_error_app1 by lia.
  unfold h1. now apply nth_error_store_other.
Qed.

(** When [format] raises, [prepare] raises the same exception and returns
    no record. *)
Lemma prepare_raises (h : heap) (record : Queue.ref) (r : LogRecord)
    (e : exn) :
  nth_error h record = Some r ->
  format r = Raise e ->
  Queue.prepare format h record = Raise e.
Proof.
  intros Hr Hf. unfold Queue.prepare. now rewrite Hr, Hf.
Qed.
End QueueFacts.

Lemma prepare_returns_a_cleared_copy_witness :
  let format := fun r : Queue.LogRecord (list string) string unit =>
    let text := String.append (Queue.msg r) " failed" in
    Ok ({| Queue.msg := Queue.msg r; Queue.args := Queue.args r;
           Queue.exc_info := Queue.exc_info r;
           Queue.exc_text := Some "Traceback";
           Queue.message := Some text; Queue.rest := Queue.rest r |},
        text) in
  let r := {| Queue.msg := "task"; Queue.args := Some ["a"];
              Queue.exc_info := Some "ValueError";
              Queue.exc_text := None; Queue.message := None;
              Queue.rest := tt |} in
  exists h',
    Queue.prepare format [r] 0%nat = Ok (h', 1%nat) /\
    nth_error h' 1%nat =
      Some {| Queue.msg := "task"; Queue.args := None;
              Queue.exc_info := None; Queue.exc_text := Some "Traceback";
              Queue.message := Some "task failed"; Queue.rest := tt |} /\
    option_map Queue.args (nth_error h' 0%nat) = Some (Some ["a"]).
Proof.
  intros format r.
  destruct (prepare_returns_a_cleared_copy (list string) string unit format
              [r] 0%nat r _ _ eq_refl eq_refl)
    as (h' & Hp & _ & Hnew & Hold & _).
  exists h'. split; [ exact Hp |]. split; [ exact Hnew |].
  now rewrite Hold.
Defined.

(** * The order of the children *)



